(** * tsh: a tiny job-control shell (shell.c)

    A shallow embedding of the line parser, the built-in dispatcher, the
    launcher, the foreground wait and the signal handlers of [shell.c],
    followed by the properties established about them. *)

From Stdlib Require Import ZArith Ascii DecimalString.
From stdpp Require Import base list strings.

(** ** Constants of the source *)

(** [#define MAXLINE 1024] and [#define MAXARGS 128]. *)
Definition MAXLINE : nat := 1024.
Definition MAXARGS : nat := 128.

(** ** C strings and pointers

    A C string is represented by the characters that precede its
    terminating NUL.  A [char*] stored in [argv] is either [NULL] ([None])
    or points at a NUL-terminated token ([Some tok]). *)

Definition nl : string := String "010" "".
Definition tab : string := String "009" "".

(** What can go wrong in C without the program noticing. *)
Inductive fault : Type :=
  | LineOverflow            (* strcpy past the end of a MAXLINE buffer *)
  | LineUnderflow           (* buf[strlen (buf) - 1] on an empty string *)
  | ArgvOverflow (i : nat)  (* a store to argv[i] outside the caller's array *)
  | NullDeref               (* *argv[i] through a NULL entry *)
  | OutOfFuel.              (* the model's loop bound was too small *)

Inductive outcome (A : Type) : Type :=
  | Ok (a : A)
  | Fault (f : fault).
Arguments Ok {A} a.
Arguments Fault {A} f.

(** ** parseline *)

Module Parser.

(** [buf[strlen (buf) - 1] = ' '] on a non-empty string. *)
Fixpoint set_last (c : ascii) (s : string) : string :=
  match s with
  | EmptyString => EmptyString
  | String a EmptyString => String c EmptyString
  | String a rest => String a (set_last c rest)
  end.

(** The loops that step over spaces, lines 155-156 and 176-177. *)
Fixpoint skip_spaces (buf : string) : string :=
  match buf with
  | String " " rest => skip_spaces rest
  | _ => buf
  end.

(** [strchr (buf, c)] for [c <> NUL]: [None] is the NULL result; otherwise
    the characters in front of the first [c] and the string that starts
    right after it (at [delim + 1]). *)
Fixpoint strchr (buf : string) (c : ascii) : option (string * string) :=
  match buf with
  | EmptyString => None
  | String a rest =>
      if Ascii.eqb a c then Some (EmptyString, rest)
      else match strchr rest c with
           | Some (front, after) => Some (String a front, after)
           | None => None
           end
  end.

(** The if/else that computes [delim], at lines 161-169 and 179-187: a
    leading quote is stepped over and the token runs to the next quote,
    otherwise it runs to the next space. *)
Definition find_delim (buf : string) : option (string * string) :=
  match buf with
  | String "'" rest => strchr rest "'"
  | _ => strchr buf " "
  end.

(** The [while (delim)] loop, lines 171-188.  [argv] is the caller's array;
    a store outside it is reported as a fault.  Every turn consumes at
    least the delimiter, so [String.length buf] turns are enough. *)
Fixpoint build_argv (fuel : nat) (buf : string) (argc : nat)
    (argv : list (option string)) : outcome (nat * list (option string)) :=
  match find_delim buf with
  | None => Ok (argc, argv)
  | Some (tok, after) =>
      match fuel with
      | O => Fault OutOfFuel
      | S fuel' =>
          if bool_decide (argc < length argv) then
            build_argv fuel' (skip_spaces after) (S argc)
                       (<[argc := Some tok]> argv)
          else Fault (ArgvOverflow argc)
      end
  end.

(** [*argv[i] == '&'] *)
Definition starts_with_amp (tok : string) : bool :=
  match tok with
  | String "&" _ => true
  | _ => false
  end.

(** Lines 153-189: copy, replace the last character, skip the leading
    spaces, fill [argv] and terminate it with NULL. *)
Definition parse_args (cmdline : string) (argv : list (option string))
    : outcome (nat * list (option string)) :=
  if bool_decide (MAXLINE ≤ String.length cmdline) then Fault LineOverflow
  else if bool_decide (String.length cmdline = 0) then Fault LineUnderflow
  else
    let buf := skip_spaces (set_last " " cmdline) in
    match build_argv (String.length buf) buf 0 argv with
    | Fault f => Fault f
    | Ok (argc, argv1) =>
        if bool_decide (argc < length argv1)
        then Ok (argc, <[argc := None]> argv1)
        else Fault (ArgvOverflow argc)
    end.

(** Lines 191-199: the result is the [int] returned and the array as
    [parseline] leaves it. *)
Definition parseline (cmdline : string) (argv : list (option string))
    : outcome (Z * list (option string)) :=
  match parse_args cmdline argv with
  | Fault f => Fault f
  | Ok (argc, argv1) =>
      match argc with
      | O => Ok (1%Z, argv1)
      | S k =>
          match argv1 !! k with
          | Some (Some tok) =>
              if starts_with_amp tok
              then Ok (1%Z, <[k := None]> argv1)
              else Ok (0%Z, argv1)
          | Some None => Fault NullDeref
          | None => Fault (ArgvOverflow k)
          end
      end
  end.

(** The argument vector a reader of [argv] sees: the entries in front of
    the first NULL. *)
Fixpoint argv_tokens (argv : list (option string)) : list string :=
  match argv with
  | Some tok :: rest => tok :: argv_tokens rest
  | _ => []
  end.

(** An automatic array [char* argv[n]]: [n] entries of indeterminate
    content, [junk i] standing for whatever entry [i] holds. *)
Definition auto_array (junk : nat → option string) (n : nat)
    : list (option string) :=
  junk <$> seq 0 n.

(** The tokens the loop cuts out of [buf], without the array. *)
Fixpoint scan (fuel : nat) (buf : string) : list string :=
  match fuel with
  | O => []
  | S fuel' =>
      match find_delim buf with
      | None => []
      | Some (tok, after) => tok :: scan fuel' (skip_spaces after)
      end
  end.

Definition tokens_of (cmdline : string) : list string :=
  let buf := skip_spaces (set_last " " cmdline) in
  scan (String.length buf) buf.

End Parser.

Import Parser.


(** ** Signals, the tracking variables and what the shell does to the world *)

Inductive signal : Type := SIGINT | SIGQUIT | SIGCHLD | SIGCONT | SIGTSTP.

Global Instance signal_eq_dec : EqDecision signal.
Proof. solve_decision. Defined.

(** The two globals, together with what the shell has written to its
    output and the [kill] calls it has made, oldest first. *)
Record shell : Type := Shell {
  g_runningPid : Z;
  g_suspendedPid : Z;
  output : list string;
  kills : list (Z * signal)
}.

Definition set_running (pid : Z) (st : shell) : shell :=
  Shell pid (g_suspendedPid st) (output st) (kills st).

Definition set_suspended (pid : Z) (st : shell) : shell :=
  Shell (g_runningPid st) pid (output st) (kills st).

Definition printf (text : string) (st : shell) : shell :=
  Shell (g_runningPid st) (g_suspendedPid st) (output st ++ [text]) (kills st).

Definition kill (pid : Z) (sig : signal) (st : shell) : shell :=
  Shell (g_runningPid st) (g_suspendedPid st) (output st)
        (kills st ++ [(pid, sig)]).

(** [%d] *)
Definition dec (z : Z) : string := NilZero.string_of_int (Z.to_int z).

(** What [<signal.h>], [<sys/wait.h>] and the C library supply: the signal
    numbers, the two status macros, and the text [strerror (errno)] yields
    after a failed [fork]. *)
Class Platform : Type := {
  signo : signal → Z;
  WIFSIGNALED : Z → bool;
  WTERMSIG : Z → Z;
  strerror_errno : string
}.

(** Linux on x86 and ARM with glibc, for the worked examples. *)
Definition linux : Platform := {|
  signo s :=
    match s with
    | SIGINT => 2
    | SIGQUIT => 3
    | SIGCHLD => 17
    | SIGCONT => 18
    | SIGTSTP => 20
    end%Z;
  WIFSIGNALED status :=
    (0 <? Z.land status 127)%Z && (Z.land status 127 <? 127)%Z;
  WTERMSIG status := Z.land status 127;
  strerror_errno := "Resource temporarily unavailable"
|}.

Section Shell.

Context `{Platform}.

(** *** makefg, lines 400-406 *)
Definition makefg (st : shell) : shell :=
  let st1 :=
    if bool_decide (g_suspendedPid st ≠ 0%Z)
    then kill (- g_suspendedPid st) SIGCONT st
    else st in
  let temp := g_runningPid st1 in
  let st2 := set_running (g_suspendedPid st1) st1 in
  set_suspended temp st2.

(** *** The handlers *)

(** [sigchld_handler], lines 271-284.  [reaped] lists what the successive
    [waitpid (-1, &status, WNOHANG)] calls return, as (pid, status); when
    the list runs out the next call returns nothing collectable. *)
Fixpoint sigchld_handler (reaped : list (Z * Z)) (st : shell) : shell :=
  match reaped with
  | [] => st
  | (pid, status) :: rest =>
      if bool_decide (0 < pid)%Z then
        let st1 :=
          if bool_decide (g_runningPid st = pid) then
            let st0 :=
              if WIFSIGNALED status
                 && bool_decide (WTERMSIG status = signo SIGINT)
              then printf ("Job (" +:+ dec pid +:+ ") terminated by signal "
                           +:+ dec (signo SIGINT) +:+ nl) st
              else st in
            set_running 0 st0
          else st in
        sigchld_handler rest st1
      else st
  end.

(** [sigint_handler], lines 291-296. *)
Definition sigint_handler (st : shell) : shell :=
  if bool_decide (g_runningPid st = 0%Z) then st
  else kill (- g_runningPid st) SIGINT st.

(** [sigtstp_handler], lines 303-310. *)
Definition sigtstp_handler (st : shell) : shell :=
  if bool_decide (g_runningPid st = 0%Z) then st
  else
    let st1 := printf ("Job (" +:+ dec (g_runningPid st)
                       +:+ ") stopped by signal " +:+ dec (signo SIGTSTP)
                       +:+ nl) st in
    let st2 := kill (- g_runningPid st1) SIGTSTP st1 in
    makefg st2.

(** [sigquit_handler], lines 359-364: the text it prints; it then calls
    [exit (1)]. *)
Definition sigquit_handler (st : shell) : shell :=
  printf ("Terminating after receipt of SIGQUIT signal" +:+ nl) st.

(** *** builtin_cmd, lines 382-393

    Which of the three branches is taken.  [Resumes] stands for the body
    [makefg (); waitfg (); return 1;], which the machine below carries
    out statement by statement. *)
Inductive dispatch : Type :=
  | Exits (status : Z)
  | Resumes
  | Returns (value : Z).

Definition builtin_cmd (arg : list (option string)) : outcome dispatch :=
  match arg !! 0 with
  | Some (Some arg0) =>
      if String.eqb arg0 "quit" then Ok (Exits 0)
      else if String.eqb arg0 "fg" then Ok Resumes
      else Ok (Returns 0)
  | Some None => Fault NullDeref
  | None => Fault (ArgvOverflow 0)
  end.

(** *** Signal sets *)

Definition sigemptyset : list signal := [].

Definition sigismember (mask : list signal) (s : signal) : bool :=
  bool_decide (s ∈ mask).

Definition sigaddset (mask : list signal) (s : signal) : list signal :=
  if sigismember mask s then mask else mask ++ [s].

(** [sigprocmask (SIG_BLOCK, &set, ...)]: the union of the two sets. *)
Definition sig_block (set mask : list signal) : list signal :=
  foldl sigaddset mask set.

Definition sigdelset (mask : list signal) (s : signal) : list signal :=
  filter (λ s', s' ≠ s) mask.

(** The set [eval] builds at lines 225-228. *)
Definition relayed_set : list signal :=
  sigaddset (sigaddset (sigaddset sigemptyset SIGCHLD) SIGINT) SIGTSTP.

(** [main] installs a handler for these (lines 118-121). *)
Definition has_handler (s : signal) : bool :=
  match s with
  | SIGCONT => false
  | _ => true
  end.

(** *** The shell process as a machine

    [eval], [waitfg] and the body of the [fg] built-in, one step per
    statement, interleaved with the arrival and the delivery of signals.
    A handler runs to completion when its signal is delivered. *)

Inductive caller : Type := In_builtin | In_eval.

Inductive point : Type :=
  | P_parse                       (* 213-217 *)
  | P_builtin                     (* 220 and 384-387 *)
  | P_fg_makefg                   (* 388 *)
  | P_wait (from : caller)        (* 373, the loop test of waitfg *)
  | P_suspend (from : caller)     (* 374, inside sigsuspend *)
  | P_block                       (* 225-229 *)
  | P_fork                        (* 231-238 *)
  | P_child                       (* 241-246, in the new process *)
  | P_record                      (* 248 *)
  | P_bg                          (* 250-253 *)
  | P_restore                     (* 256 *)
  | P_return                      (* eval has returned to main *)
  | P_exit (status : Z)           (* the process has called exit *)
  | P_exec                        (* execvp replaced the image *)
  | P_fault (f : fault).

Global Instance caller_eq_dec : EqDecision caller.
Proof. solve_decision. Defined.

Global Instance fault_eq_dec : EqDecision fault.
Proof. solve_decision. Defined.

Global Instance point_eq_dec : EqDecision point.
Proof. solve_decision. Defined.

Record config : Type := Config {
  pc : point;
  vars : shell;
  sigmask : list signal;    (* the signals the process has blocked *)
  pending : list signal;    (* raised and not yet delivered *)
  cmdline : string;         (* eval's argument *)
  argv : list (option string);
  bg : Z;
  prev : list signal;       (* eval's saved mask *)
  pid : Z;
  saved : list signal;      (* the mask sigsuspend puts back on return *)
  woken : bool              (* a handler ran since sigsuspend was entered *)
}.

Definition at_point (p : point) (c : config) : config :=
  Config p (vars c) (sigmask c) (pending c) (cmdline c) (argv c) (bg c)
         (prev c) (pid c) (saved c) (woken c).

Definition with_vars (st : shell) (c : config) : config :=
  Config (pc c) st (sigmask c) (pending c) (cmdline c) (argv c) (bg c)
         (prev c) (pid c) (saved c) (woken c).

Definition with_sigmask (m : list signal) (c : config) : config :=
  Config (pc c) (vars c) m (pending c) (cmdline c) (argv c) (bg c)
         (prev c) (pid c) (saved c) (woken c).

Definition with_pending (m : list signal) (c : config) : config :=
  Config (pc c) (vars c) (sigmask c) m (cmdline c) (argv c) (bg c)
         (prev c) (pid c) (saved c) (woken c).

Definition with_parse (b : Z) (a : list (option string)) (c : config)
    : config :=
  Config (pc c) (vars c) (sigmask c) (pending c) (cmdline c) a b
         (prev c) (pid c) (saved c) (woken c).

Definition with_prev (m : list signal) (c : config) : config :=
  Config (pc c) (vars c) (sigmask c) (pending c) (cmdline c) (argv c) (bg c)
         m (pid c) (saved c) (woken c).

Definition with_pid (p : Z) (c : config) : config :=
  Config (pc c) (vars c) (sigmask c) (pending c) (cmdline c) (argv c) (bg c)
         (prev c) p (saved c) (woken c).

Definition with_saved (m : list signal) (c : config) : config :=
  Config (pc c) (vars c) (sigmask c) (pending c) (cmdline c) (argv c) (bg c)
         (prev c) (pid c) m (woken c).

Definition with_woken (w : bool) (c : config) : config :=
  Config (pc c) (vars c) (sigmask c) (pending c) (cmdline c) (argv c) (bg c)
         (prev c) (pid c) (saved c) w.

(** [eval (line)] is entered: the local array holds whatever [junk] says. *)
Definition enter_eval (line : string) (junk : nat → option string)
    (st : shell) (mask pend : list signal) : config :=
  Config P_parse st mask pend line (auto_array junk MAXARGS) 0 [] 0 [] false.

Definition alive (p : point) : bool :=
  match p with
  | P_exit _ | P_exec | P_fault _ => false
  | _ => true
  end.

(** [strtok (buf, "\n")]: the first run of characters other than newline;
    NULL when there is none. *)
Fixpoint upto_newline (s : string) : string :=
  match s with
  | EmptyString => EmptyString
  | String a rest =>
      if Ascii.eqb a "010" then EmptyString else String a (upto_newline rest)
  end.

Fixpoint strtok_newline (s : string) : option string :=
  match s with
  | EmptyString => None
  | String a rest =>
      if Ascii.eqb a "010" then strtok_newline rest
      else Some (upto_newline s)
  end.

(** The handler installed for [s] runs. *)
Definition run_handler (s : signal) (reaped : list (Z * Z)) (c : config)
    : config :=
  match s with
  | SIGINT => with_vars (sigint_handler (vars c)) c
  | SIGTSTP => with_vars (sigtstp_handler (vars c)) c
  | SIGCHLD => with_vars (sigchld_handler reaped (vars c)) c
  | SIGQUIT => at_point (P_exit 1) (with_vars (sigquit_handler (vars c)) c)
  | SIGCONT => c
  end.

(** [waitfg], lines 370-375, called from [from].  Awake, it tests
    [g_runningPid] and either returns to its caller or enters
    [sigsuspend] with the empty mask; asleep in [sigsuspend], it returns
    from it, the old mask put back, once a handler has run. *)
Definition waitfg (from : caller) (asleep : bool) (c : config)
    : option config :=
  if asleep then
    if woken c
    then Some (at_point (P_wait from) (with_sigmask (saved c) c))
    else None
  else if bool_decide (g_runningPid (vars c) ≠ 0%Z) then
    Some (at_point (P_suspend from)
            (with_woken false
               (with_sigmask sigemptyset (with_saved (sigmask c) c))))
  else
    Some (at_point (match from with
                    | In_builtin => P_return
                    | In_eval => P_restore
                    end) c).

(** [eval], lines 207-257, with the body of [builtin_cmd] it calls: the
    statement at the current point.  [ret] is what the system call made
    there returns ([fork] at [P_fork], [execvp] at [P_child]). *)
Definition eval (ret : Z) (c : config) : option config :=
  match pc c with
  | P_parse =>
      if bool_decide (MAXLINE ≤ String.length (cmdline c))
      then Some (at_point (P_fault LineOverflow) c)
      else
        match parseline (cmdline c) (argv c) with
        | Fault f => Some (at_point (P_fault f) c)
        | Ok (b, a) =>
            let c1 := with_parse b a c in
            match a !! 0 with
            | Some None => Some (at_point P_return c1)
            | Some (Some _) => Some (at_point P_builtin c1)
            | None => Some (at_point (P_fault (ArgvOverflow 0)) c1)
            end
        end
  | P_builtin =>
      match builtin_cmd (argv c) with
      | Fault f => Some (at_point (P_fault f) c)
      | Ok (Exits n) => Some (at_point (P_exit n) c)
      | Ok Resumes => Some (at_point P_fg_makefg c)
      | Ok (Returns v) =>
          if bool_decide (v ≠ 0%Z) then Some (at_point P_return c)
          else Some (at_point P_block c)
      end
  | P_fg_makefg =>
      Some (at_point (P_wait In_builtin) (with_vars (makefg (vars c)) c))
  | P_wait from => waitfg from false c
  | P_suspend from => waitfg from true c
  | P_block =>
      Some (at_point P_fork
              (with_sigmask (sig_block relayed_set (sigmask c))
                 (with_prev (sigmask c) c)))
  | P_fork =>
      if bool_decide (ret < 0)%Z then
        Some (at_point (P_exit 1)
                (with_vars (printf ("fork error (" +:+ strerror_errno
                                    +:+ ") -- exiting" +:+ nl) (vars c)) c))
      else if bool_decide (ret = 0%Z) then
        Some (at_point P_child (with_pid ret c))
      else Some (at_point P_record (with_pid ret c))
  | P_child =>
      let c1 := with_sigmask (prev c) c in
      if bool_decide (ret = (-1)%Z) then
        match strtok_newline (cmdline c) with
        | Some name =>
            Some (at_point (P_exit 1)
                    (with_vars (printf (name +:+ ": Command not found" +:+ nl)
                                       (vars c1)) c1))
        | None => Some (at_point (P_fault NullDeref) c1)
        end
      else Some (at_point P_exec c1)
  | P_record =>
      Some (at_point P_bg (with_vars (set_running (pid c) (vars c)) c))
  | P_bg =>
      if bool_decide (bg c ≠ 0%Z) then
        Some (at_point (P_wait In_eval)
                (with_vars
                   (set_running 0
                      (printf ("(" +:+ dec (pid c) +:+ ") " +:+ cmdline c)
                              (vars c))) c))
      else Some (at_point (P_wait In_eval) c)
  | P_restore => Some (at_point P_return (with_sigmask (prev c) c))
  | P_return | P_exit _ | P_exec | P_fault _ => None
  end.

Inductive choice : Type :=
  | Raise (s : signal)                         (* s becomes pending *)
  | Handle (s : signal) (reaped : list (Z * Z)) (* s is delivered *)
  | Main (ret : Z).                            (* the main flow moves on *)

Definition step (ch : choice) (c : config) : option config :=
  if alive (pc c) then
    match ch with
    | Raise s => Some (with_pending (sigaddset (pending c) s) c)
    | Handle s reaped =>
        if sigismember (pending c) s && negb (sigismember (sigmask c) s)
           && has_handler s
        then Some (run_handler s reaped
                     (with_woken true
                        (with_pending (sigdelset (pending c) s) c)))
        else None
    | Main ret => eval ret c
    end
  else None.

(** A run under a schedule: the final configuration and, for every step
    taken, the configuration it was taken from. *)
Fixpoint exec (sched : list choice) (c : config)
    : option (list (config * choice) * config) :=
  match sched with
  | [] => Some ([], c)
  | ch :: rest =>
      match step ch c with
      | None => None
      | Some c1 =>
          match exec rest c1 with
          | None => None
          | Some (tr, c2) => Some ((c, ch) :: tr, c2)
          end
      end
  end.

(** *** Job-control operations on the tracking variables

    Stop is the terminal-stop handler, resume is the swap the [fg] built-in
    performs, interrupt is the terminal-interrupt handler, and reaping is
    the child handler with what [waitpid] hands it. *)
Inductive job_op : Type :=
  | Stop
  | Resume
  | Interrupt
  | Reap (reaped : list (Z * Z)).

Definition apply_op (st : shell) (op : job_op) : shell :=
  match op with
  | Stop => sigtstp_handler st
  | Resume => makefg st
  | Interrupt => sigint_handler st
  | Reap reaped => sigchld_handler reaped st
  end.

(** The states passed through, the starting one first. *)
Fixpoint states_along (ops : list job_op) (st : shell) : list shell :=
  match ops with
  | [] => [st]
  | op :: rest => st :: states_along rest (apply_op st op)
  end.

End Shell.

(** ** Notions used to state the properties *)

(** A process-group id is recorded in one of the two slots. *)
Definition tracked (pgid : Z) (st : shell) : bool :=
  bool_decide (g_runningPid st = pgid) || bool_decide (g_suspendedPid st = pgid).

(** The two slots do not hold the same non-zero id. *)
Definition exclusive (st : shell) : bool :=
  negb (bool_decide (g_runningPid st ≠ 0%Z)
        && bool_decide (g_runningPid st = g_suspendedPid st)).

(** No child is collectable: the first [waitpid] returns 0 or -1. *)
Definition nothing_collectable (reaped : list (Z * Z)) : bool :=
  match reaped with
  | [] => true
  | (pid, _) :: _ => bool_decide (pid ≤ 0)%Z
  end.

(** The three signals the shell relays or reaps: the child-state-change,
    terminal-interrupt and terminal-stop signals, named one by one. *)
Definition relayed (s : signal) : bool :=
  match s with
  | SIGCHLD | SIGINT | SIGTSTP => true
  | SIGQUIT | SIGCONT => false
  end.

(** The points of [eval] between blocking and the restore, outside
    [sigsuspend]. *)
Definition masked_point (p : point) : bool :=
  match p with
  | P_fork | P_record | P_bg | P_wait In_eval | P_restore => true
  | _ => false
  end.

(** The main flow has forked and has not stored the child's pid yet, or
    will never store it (in the child, or once the process is gone). *)
Definition awaiting_record (p : point) : bool :=
  match p with
  | P_record | P_child | P_exit _ | P_exec | P_fault _ => true
  | _ => false
  end.

(** The mask discipline of the launcher: from the fork to the restore the
    three signals are in the mask, or, while [sigsuspend] sleeps, in the
    mask it will put back. *)
Definition launcher_inv (c : config) : Prop :=
  match pc c with
  | P_fork | P_child | P_record | P_bg | P_wait In_eval | P_restore =>
      ∀ s, relayed s = true → sigismember (sigmask c) s = true
  | P_suspend In_eval =>
      ∀ s, relayed s = true → sigismember (saved c) s = true
  | P_block | P_return | P_exit _ | P_exec | P_fault _ => True
  | P_parse | P_builtin | P_fg_makefg | P_wait In_builtin
  | P_suspend In_builtin => False
  end.

(** What a trace of the launcher has to satisfy: (1) at the fork, at the
    store of the pid and at every later statement of [eval] up to the
    restore, the relayed signals are in the mask; (2) a relayed handler
    runs only before the block, inside [sigsuspend], or after the return;
    (3) after the fork, a relayed handler runs only once the pid has been
    stored. *)
Definition launcher_discipline (tr : list (config * choice)) : Prop :=
  (∀ i ci ch s,
     tr !! i = Some (ci, ch) → masked_point (pc ci) = true →
     relayed s = true → sigismember (sigmask ci) s = true)
  ∧ (∀ i ci s reaped,
       tr !! i = Some (ci, Handle s reaped) → relayed s = true →
       pc ci = P_block ∨ pc ci = P_suspend In_eval ∨ pc ci = P_return)
  ∧ (∀ i j ci cj ret s reaped,
       tr !! i = Some (ci, Main ret) → pc ci = P_fork →
       tr !! j = Some (cj, Handle s reaped) → relayed s = true →
       i < j →
       ∃ k ck ret',
         i < k < j ∧ tr !! k = Some (ck, Main ret') ∧ pc ck = P_record).

(** Lines as the user types them. *)
Fixpoint has_char (c : ascii) (s : string) : bool :=
  match s with
  | EmptyString => false
  | String a rest => Ascii.eqb a c || has_char c rest
  end.

Fixpoint spaces (n : nat) : string :=
  match n with
  | O => EmptyString
  | S k => String " " (spaces k)
  end.

Definition opens_with (c : ascii) (s : string) : bool :=
  match s with
  | String a _ => Ascii.eqb a c
  | EmptyString => false
  end.

Inductive word : Type :=
  | Plain (text : string)    (* typed as it is *)
  | Quoted (text : string).  (* typed between two single quotes *)

Definition typed (w : word) : string :=
  match w with
  | Plain text => text
  | Quoted text => "'" +:+ text +:+ "'"
  end.

Definition content (w : word) : string :=
  match w with
  | Plain text => text
  | Quoted text => text
  end.

(** A plain word is not empty, holds no space and does not open with a
    quote; a quoted word holds no quote. *)
Definition word_ok (w : word) : bool :=
  match w with
  | Plain text =>
      negb (String.eqb text "") && negb (has_char " " text)
      && negb (opens_with "'" text)
  | Quoted text => negb (has_char "'" text)
  end.

(** The words separated by single spaces. *)
Fixpoint join_words (ws : list word) : string :=
  match ws with
  | [] => EmptyString
  | [w] => typed w
  | w :: rest => typed w +:+ " " +:+ join_words rest
  end.

Definition line_of (ws : list word) : string := join_words ws +:+ nl.

(** The words, each followed by one space: what the parser's buffer holds
    for [line_of ws]. *)
Fixpoint spaced (ws : list word) : string :=
  match ws with
  | [] => EmptyString
  | w :: rest => typed w +:+ " " +:+ spaced rest
  end.

(** What the last lines of [parseline] make of the tokens found: the
    value returned and the tokens left. *)
Definition strip_bg (toks : list string) : Z * list string :=
  match last toks with
  | None => (1%Z, [])
  | Some tok =>
      if starts_with_amp tok then (1%Z, removelast toks) else (0%Z, toks)
  end.

(** [n] one-letter arguments, each followed by a space. *)
Fixpoint many_args (n : nat) : string :=
  match n with
  | O => EmptyString
  | S k => "a " +:+ many_args k
  end.

(** ** Worked examples *)

Definition no_junk : nat → option string := λ _, None.

Definition idle_shell : shell := Shell 0 0 [] [].

(** [eval] has parsed [name] alone on its line and is about to call
    [builtin_cmd]. *)
Definition at_builtin (name : string) : config :=
  Config P_builtin idle_shell [] [] (name +:+ nl)
         (Some name :: replicate (MAXARGS - 1) None) 0 [] 0 [] false.

(** [eval] has found that [ls] is no built-in and is about to block the
    signals. *)
Definition at_launch : config :=
  Config P_block idle_shell [] [] ("ls" +:+ nl)
         (Some "ls" :: replicate (MAXARGS - 1) None) 0 [] 0 [] false.

(** A run of the launcher: a child exit and a ctrl-c arrive around the
    fork; the child is reaped inside [sigsuspend]. *)
Definition busy_schedule : list choice :=
  [Raise SIGINT; Main 0; Raise SIGCHLD; Main 77; Raise SIGINT; Main 0;
   Main 0; Main 0; Handle SIGINT []; Handle SIGCHLD [(77, 2)]%Z; Main 0;
   Main 0; Main 0].

(** ** Further notions: lines with extra spaces and open quotes *)

(** The loop run to its end on [buf]. *)
Definition scan_all (buf : string) : list string :=
  scan (String.length buf) buf.

(** Words with extra spaces: each word comes with the number of spaces
    typed in front of it, on top of the one that separates it from the
    word before. *)
Fixpoint gap_join (ws : list (nat * word)) : string :=
  match ws with
  | [] => EmptyString
  | [(n, w)] => spaces n +:+ typed w
  | (n, w) :: rest => spaces n +:+ typed w +:+ " " +:+ gap_join rest
  end.

(** The line: the words, [m] spaces, the newline. *)
Definition gap_line (ws : list (nat * word)) (m : nat) : string :=
  gap_join ws +:+ spaces m +:+ nl.

(** Each word with its extra spaces in front and one space behind. *)
Fixpoint padded (ws : list (nat * word)) : string :=
  match ws with
  | [] => EmptyString
  | (n, w) :: rest => spaces n +:+ typed w +:+ " " +:+ padded rest
  end.

(** A line whose last part opens a quote that is never closed. *)
Definition open_quote_line (ws : list (nat * word)) (rest : string) : string :=
  padded ws +:+ "'" +:+ rest +:+ nl.

(** ** Further notions: what holds along the runs of eval *)

(** Outside the wait for a foreground job, no foreground job is
    recorded. *)
Definition idle_at_rest (c : config) : Prop :=
  match pc c with
  | P_bg | P_wait _ | P_suspend _ | P_exit _ | P_exec | P_fault _ => True
  | _ => g_runningPid (vars c) = 0%Z
  end.

(** Where the mask [eval] was entered with is kept: in the mask itself, in
    [prev] once the signals are blocked, in the mask [sigsuspend] puts
    back while the [fg] built-in sleeps. *)
Definition mask_kept (mask : list signal) (c : config) : Prop :=
  match pc c with
  | P_parse | P_builtin | P_fg_makefg | P_wait In_builtin | P_block
  | P_return => sigmask c = mask
  | P_suspend In_builtin => saved c = mask
  | P_fork | P_child | P_record | P_bg | P_wait In_eval | P_suspend In_eval
  | P_restore => prev c = mask
  | P_exit _ | P_exec | P_fault _ => True
  end.

(** The launcher at work on a background command. *)
Definition background_launch (c : config) : Prop :=
  bg c ≠ 0%Z
  ∧ match pc c with
    | P_block | P_fork | P_child | P_record | P_bg | P_exit _ | P_exec
    | P_fault _ => True
    | P_wait In_eval | P_restore | P_return => g_runningPid (vars c) = 0%Z
    | _ => False
    end.

(** The new process between the fork and the end of [eval] in it. *)
Definition in_child (mask : list signal) (c : config) : Prop :=
  match pc c with
  | P_child => prev c = mask
  | P_exec => sigmask c = mask
  | P_exit status => status = 1%Z
  | P_fault f => f = NullDeref
  | _ => False
  end.

(** ** main, lines 111-133 *)

(** [char prompt[] = "tsh> "] *)
Definition prompt : string := "tsh> ".

(** [fgets (sbuf, room + 1, stdin)]: the characters stored, what is left
    of the input, and whether the end of the input was hit.  It stops
    after a newline, or when [room] characters are stored, or at the end
    of the input; nothing stored at the end of the input is the NULL
    result, which leaves [sbuf] as it was. *)
Fixpoint fgets (room : nat) (stdin : string) : string * string * bool :=
  match room with
  | O => (EmptyString, stdin, false)
  | S room' =>
      match stdin with
      | EmptyString => (EmptyString, EmptyString, true)
      | String a rest =>
          if Ascii.eqb a "010" then (String a EmptyString, rest, false)
          else
            let '(line, rest', eof) := fgets room' rest in
            (String a line, rest', eof)
      end
  end.

(** The C string in a buffer: the bytes in front of the first NUL byte.
    [fgets] stores whatever bytes the input holds, NUL bytes included;
    [strcpy] and [strlen] in [eval] and [parseline] stop at the first. *)
Fixpoint c_string (bytes : string) : string :=
  match bytes with
  | EmptyString => EmptyString
  | String a rest =>
      if Ascii.eqb a "000" then EmptyString else String a (c_string rest)
  end.

(** How a run of [main] ends. *)
Inductive main_result : Type :=
  | Exited (status : Z) (st : shell)
      (* main called exit at the end of the input *)
  | Gone (c : config)
      (* the run ended inside eval: the process exited or was replaced,
         or it is still in there *)
  | No_run
      (* a schedule asked for a step that cannot be taken *)
  | Reading (rest sbuf : string) (st : shell) (mask pend : list signal).
      (* the schedules are used up: main has the bytes [sbuf] in its
         buffer and is about to hand the C string in them to eval *)

Section Main.

Context `{Platform}.

(** The [while (1)] loop of [main], lines 123-130, the handlers being
    installed: the prompt, [fgets], the test of [feof], [eval].  [sbuf]
    holds the bytes [fgets] stored; [eval] receives the buffer as a
    [char*] and so works on the C string in it.  The schedule of each
    call of [eval] tells which signals arrive and when; the steps it
    lists after the return of [eval] are taken while [main] prompts and
    reads. *)
Fixpoint main_loop (scheds : list (list choice)) (junk : nat → option string)
    (stdin sbuf : string) (st : shell) (mask pend : list signal)
    : main_result :=
  let st1 := printf prompt st in
  let '(line, rest, eof) := fgets (MAXLINE - 1) stdin in
  let sbuf1 := if bool_decide (line = EmptyString) then sbuf else line in
  if eof then Exited 0 st1
  else
    match scheds with
    | [] => Reading rest sbuf1 st1 mask pend
    | sched :: scheds' =>
        match exec sched (enter_eval (c_string sbuf1) junk st1 mask pend) with
        | None => No_run
        | Some (_, c) =>
            if bool_decide (pc c = P_return)
            then main_loop scheds' junk rest sbuf1
                           (vars c) (sigmask c) (pending c)
            else Gone c
        end
    end.

(** [main]: [sbuf] is a global and starts out empty, no job is recorded,
    nothing has been printed; [mask] is the signal mask the shell is
    started with. *)
Definition main (scheds : list (list choice)) (junk : nat → option string)
    (stdin : string) (mask : list signal) : main_result :=
  main_loop scheds junk stdin EmptyString (Shell 0 0 [] []) mask [].

End Main.



(** A foreground command from the parse to the return: the child is
    forked as 77, exits, and is reaped inside [sigsuspend]. *)
Definition foreground_schedule : list choice :=
  [Main 0; Main 0; Main 0; Main 77; Main 0; Main 0; Main 0;
   Raise SIGCHLD; Handle SIGCHLD [(77, 0)]%Z; Main 0; Main 0; Main 0].

(** ** The line parser *)

Section ParserFacts.

Implicit Types (buf tok front after cmdline : string) (c a : ascii).
Implicit Types (argv : list (option string)) (toks : list string).

Lemma append_cons a s1 s2 : String a s1 +:+ s2 = String a (s1 +:+ s2).
Proof. reflexivity. Qed.

Lemma append_nil s : "" +:+ s = s.
Proof. reflexivity. Qed.

Lemma length_append s1 s2 :
  String.length (s1 +:+ s2) = String.length s1 + String.length s2.
Proof.
  induction s1 as [| a s1 IH]; [done |].
  rewrite append_cons. simpl. by rewrite IH.
Qed.

Lemma append_assoc s1 s2 s3 : (s1 +:+ s2) +:+ s3 = s1 +:+ s2 +:+ s3.
Proof.
  induction s1 as [| a s1 IH]; [done |].
  rewrite !append_cons. by rewrite IH.
Qed.

Lemma skip_spaces_cons a rest :
  skip_spaces (String a rest)
  = if Ascii.eqb a " " then skip_spaces rest else String a rest.
Proof. by destruct a as [[] [] [] [] [] [] [] []]. Qed.

Lemma find_delim_cons a rest :
  find_delim (String a rest)
  = if Ascii.eqb a "'" then strchr rest "'" else strchr (String a rest) " ".
Proof. by destruct a as [[] [] [] [] [] [] [] []]. Qed.

Lemma starts_with_amp_opens tok : starts_with_amp tok = opens_with "&" tok.
Proof. destruct tok as [| a rest]; [done |]. by destruct a as [[] [] [] [] [] [] [] []]. Qed.

Lemma strchr_length buf c front after :
  strchr buf c = Some (front, after) →
  String.length buf = String.length front + 1 + String.length after.
Proof.
  revert front. induction buf as [| a rest IH]; intros front; simpl; [done |].
  destruct (Ascii.eqb a c).
  - intros [= <- <-]. simpl. lia.
  - destruct (strchr rest c) as [[front' after'] |] eqn:Hrest; [| done].
    intros [= <- <-]. simpl. rewrite (IH front' eq_refl). lia.
Qed.

Lemma skip_spaces_length buf :
  String.length (skip_spaces buf) ≤ String.length buf.
Proof.
  induction buf as [| a rest IH]; [done |].
  rewrite skip_spaces_cons. destruct (Ascii.eqb a " "); simpl; lia.
Qed.

(** Every turn of the loop leaves a strictly shorter buffer. *)
Lemma find_delim_length buf tok after :
  find_delim buf = Some (tok, after) →
  String.length (skip_spaces after) < String.length buf.
Proof.
  intros Hfind. pose proof (skip_spaces_length after) as Hskip.
  destruct buf as [| a rest]; [done |].
  rewrite find_delim_cons in Hfind. destruct (Ascii.eqb a "'").
  - apply strchr_length in Hfind. simpl. lia.
  - apply strchr_length in Hfind. lia.
Qed.

(** The loop stores the scanned tokens one after the other from [argc] on,
    and faults at the first index outside the array. *)
Lemma build_argv_scan fuel buf argc argv :
  String.length buf ≤ fuel → argc ≤ length argv →
  build_argv fuel buf argc argv =
    if bool_decide (argc + length (scan fuel buf) ≤ length argv)
    then Ok (argc + length (scan fuel buf),
             take argc argv ++ (Some <$> scan fuel buf)
               ++ drop (argc + length (scan fuel buf)) argv)
    else Fault (ArgvOverflow (length argv)).
Proof.
  revert buf argc argv.
  induction fuel as [| fuel IH]; intros buf argc argv Hfuel Hargc.
  - destruct buf; [| simpl in Hfuel; lia]. simpl.
    rewrite bool_decide_eq_true_2 by lia.
    by rewrite Nat.add_0_r, take_drop.
  - cbn [build_argv scan].
    destruct (find_delim buf) as [[tok after] |] eqn:Hfind.
    + pose proof (find_delim_length _ _ _ Hfind) as Hshort.
      cbn [length]. case_bool_decide as Hin.
      * rewrite IH by (rewrite ?length_insert; lia).
        rewrite length_insert.
        case_bool_decide; case_bool_decide; try lia; [| done].
        f_equal. f_equal; [lia |].
        rewrite (take_S_r _ _ (Some tok)) by by apply list_lookup_insert_eq.
        rewrite take_insert_ge by lia.
        rewrite drop_insert_lt by lia.
        rewrite <- app_assoc. simpl.
        by replace (argc + S (length (scan fuel (skip_spaces after))))
          with (S argc + length (scan fuel (skip_spaces after))) by lia.
      * rewrite bool_decide_eq_false_2 by lia. do 2 f_equal. lia.
    + simpl. rewrite bool_decide_eq_true_2 by lia.
      by rewrite Nat.add_0_r, take_drop.
Qed.

(** The loop never runs out of turns. *)
Lemma build_argv_total buf argc argv :
  build_argv (String.length buf) buf argc argv ≠ Fault OutOfFuel.
Proof.
  assert (∀ fuel buf argc argv, String.length buf ≤ fuel →
            build_argv fuel buf argc argv ≠ Fault OutOfFuel) as Hgen.
  { clear. induction fuel as [| fuel IH]; intros buf argc argv Hfuel.
    - by destruct buf; [| simpl in Hfuel; lia].
    - cbn [build_argv].
      destruct (find_delim buf) as [[tok after] |] eqn:Hfind; [| done].
      pose proof (find_delim_length _ _ _ Hfind).
      case_bool_decide; [| done]. apply IH. lia. }
  by apply Hgen.
Qed.

Lemma parseline_total cmdline argv :
  parseline cmdline argv ≠ Fault OutOfFuel.
Proof.
  unfold parseline, parse_args.
  pose proof (build_argv_total (skip_spaces (set_last " " cmdline)) 0 argv).
  repeat case_match; congruence.
Qed.

Lemma parse_args_spec cmdline argv :
  0 < String.length cmdline < MAXLINE →
  parse_args cmdline argv =
    if bool_decide (length (tokens_of cmdline) < length argv)
    then Ok (length (tokens_of cmdline),
             (Some <$> tokens_of cmdline)
               ++ None :: drop (S (length (tokens_of cmdline))) argv)
    else Fault (ArgvOverflow (length argv)).
Proof.
  intros Hlen. unfold parse_args, tokens_of.
  rewrite bool_decide_eq_false_2 by lia.
  rewrite bool_decide_eq_false_2 by lia.
  set (buf := skip_spaces (set_last " " cmdline)).
  rewrite build_argv_scan by lia. simpl.
  set (toks := scan (String.length buf) buf).
  case_bool_decide as Hfit.
  - rewrite length_app, length_fmap, length_drop.
    case_bool_decide as Hlt; case_bool_decide; try lia; [| do 2 f_equal; lia].
    f_equal. f_equal.
    rewrite insert_app_r_alt by (rewrite length_fmap; lia).
    rewrite length_fmap, Nat.sub_diag. f_equal.
    destruct (lookup_lt_is_Some_2 argv (length toks)) as [x Hx]; [lia |].
    by rewrite (drop_S _ _ _ Hx).
  - by rewrite bool_decide_eq_false_2 by lia.
Qed.

Lemma argv_tokens_terminated toks (rest : list (option string)) :
  argv_tokens ((Some <$> toks) ++ None :: rest) = toks.
Proof. induction toks as [| tok toks IH]; csimpl; [done | by rewrite IH]. Qed.

(** A line of [1 .. MAXLINE - 1] characters whose tokens and the NULL after
    them fit the array is parsed without fault: the value returned and the
    argument vector left in [argv] are those of [strip_bg]. *)
Lemma parseline_spec cmdline argv :
  0 < String.length cmdline < MAXLINE →
  length (tokens_of cmdline) < length argv →
  ∃ argv',
    parseline cmdline argv = Ok ((strip_bg (tokens_of cmdline)).1, argv')
    ∧ argv_tokens argv' = (strip_bg (tokens_of cmdline)).2
    ∧ length argv' = length argv.
Proof.
  intros Hlen Hfit. unfold parseline. rewrite parse_args_spec by done.
  rewrite bool_decide_eq_true_2 by done.
  destruct (tokens_of cmdline) as [| tok0 toks0] eqn:Htoks using rev_ind.
  - eexists. split; [done |]. split; [done |].
    simpl. rewrite length_drop. lia.
  - clear IHtoks0. rename tok0 into tok, toks0 into toks.
    rewrite length_app in *. simpl in *.
    replace (length toks + 1) with (S (length toks)) by lia.
    assert (((Some <$> toks ++ [tok])
               ++ None :: drop (S (S (length toks))) argv) !! length toks
            = Some (Some tok)) as ->.
    { rewrite fmap_app, <- app_assoc.
      rewrite lookup_app_r by (rewrite length_fmap; lia).
      by rewrite length_fmap, Nat.sub_diag. }
    unfold strip_bg. rewrite last_snoc, removelast_last.
    destruct (starts_with_amp tok); eexists; (split; [done |]); simpl.
    + rewrite fmap_app, <- app_assoc.
      rewrite insert_app_r_alt by (rewrite length_fmap; lia).
      rewrite length_fmap, Nat.sub_diag. simpl.
      rewrite argv_tokens_terminated. split; [done |].
      rewrite length_app, length_fmap. simpl. rewrite length_drop. lia.
    + rewrite argv_tokens_terminated. split; [done |].
      rewrite length_app, length_fmap, length_app. simpl.
      rewrite length_drop. lia.
Qed.

(** *** Lines made of words *)

Lemma set_last_cons c a rest :
  rest ≠ "" → set_last c (String a rest) = String a (set_last c rest).
Proof. by destruct rest. Qed.

Lemma set_last_snoc c a s : set_last c (s +:+ String a "") = s +:+ String c "".
Proof.
  induction s as [| b s IH]; [done |].
  rewrite !append_cons, set_last_cons, IH; [done |].
  by destruct s.
Qed.

Lemma skip_spaces_spaces n s : skip_spaces (spaces n +:+ s) = skip_spaces s.
Proof. induction n as [| n IH]; [done | exact IH]. Qed.

Lemma length_spaces n : String.length (spaces n) = n.
Proof. induction n as [| n IH]; simpl; [done | by rewrite IH]. Qed.

(** A line of spaces holds no token. *)
Lemma tokens_of_blank n : tokens_of (spaces n +:+ nl) = [].
Proof.
  unfold tokens_of, nl. rewrite set_last_snoc.
  by rewrite skip_spaces_spaces.
Qed.

Lemma strchr_app c front rest :
  has_char c front = false →
  strchr (front +:+ String c rest) c = Some (front, rest).
Proof.
  induction front as [| a front IH]; cbn [has_char].
  - intros _. rewrite append_nil. cbn [strchr]. by rewrite Ascii.eqb_refl.
  - intros [Ha Hfront]%orb_false_iff. rewrite append_cons. cbn [strchr].
    by rewrite Ha, IH.
Qed.

Lemma strchr_app_delim c front rest :
  has_char c front = false →
  strchr (front +:+ String c "" +:+ rest) c = Some (front, rest).
Proof. apply strchr_app. Qed.

Lemma join_words_spaced ws : ws ≠ [] → join_words ws +:+ " " = spaced ws.
Proof.
  induction ws as [| w rest IH]; [done |]. intros _.
  destruct rest as [| w' rest]; [done |].
  change (join_words (w :: w' :: rest))
    with (typed w +:+ " " +:+ join_words (w' :: rest)).
  rewrite !append_assoc, IH; done.
Qed.

Lemma length_spaced_cons w rest :
  String.length (spaced (w :: rest))
  = String.length (typed w) + 1 + String.length (spaced rest).
Proof. simpl. rewrite !length_append. simpl. lia. Qed.

Lemma skip_spaces_spaced ws :
  forallb word_ok ws = true → skip_spaces (spaced ws) = spaced ws.
Proof.
  destruct ws as [| w rest]; [done |]. simpl.
  intros [Hw _]%andb_true_iff. destruct w as [text | text]; simpl in *.
  - destruct text as [| a text]; [done |]. simpl in Hw.
    rewrite append_cons, skip_spaces_cons.
    destruct (Ascii.eqb a " "); [done | done].
  - by rewrite append_cons.
Qed.

(** On such a buffer the loop cuts out the words' contents. *)
Lemma scan_spaced ws fuel :
  forallb word_ok ws = true → String.length (spaced ws) ≤ fuel →
  scan fuel (spaced ws) = content <$> ws.
Proof.
  revert fuel. induction ws as [| w rest IH]; intros fuel Hok Hfuel.
  - by destruct fuel.
  - rewrite length_spaced_cons in Hfuel.
    destruct fuel as [| fuel]; [lia |].
    simpl in Hok. apply andb_true_iff in Hok as [Hw Hrest].
    cbn [scan spaced]. csimpl.
    destruct w as [text | text]; simpl in *.
    + destruct text as [| a text]; [done |].
      apply andb_true_iff in Hw as [[_ Hsp%negb_true_iff]%andb_true_iff
                                      Hq%negb_true_iff].
      simpl in Hq. rewrite append_cons, find_delim_cons, Hq.
      rewrite <- append_cons, strchr_app_delim by done.
      rewrite skip_spaces_spaced by done.
      rewrite IH; [done | done | simpl in Hfuel; lia].
    + apply negb_true_iff in Hw.
      rewrite append_nil, append_assoc, strchr_app_delim by done.
      rewrite (skip_spaces_spaces 1), skip_spaces_spaced by done.
      rewrite IH; [done | done |].
      rewrite !length_append in Hfuel. simpl in Hfuel. lia.
Qed.

Lemma tokens_of_line ws :
  forallb word_ok ws = true → tokens_of (line_of ws) = content <$> ws.
Proof.
  intros Hok. unfold tokens_of, line_of, nl. rewrite set_last_snoc.
  destruct (decide (ws = [])) as [-> | Hne]; [done |].
  rewrite join_words_spaced by done.
  rewrite skip_spaces_spaced by done.
  by apply scan_spaced.
Qed.

Lemma length_auto_array junk n : length (auto_array junk n) = n.
Proof. unfold auto_array. by rewrite length_fmap, length_seq. Qed.

(** More tokens than the array can take, with the NULL that follows them:
    the store faults at the first index outside the array. *)
Lemma parseline_overflow cmdline argv :
  0 < String.length cmdline < MAXLINE →
  length argv ≤ length (tokens_of cmdline) →
  parseline cmdline argv = Fault (ArgvOverflow (length argv)).
Proof.
  intros Hlen Hmany. unfold parseline. rewrite parse_args_spec by done.
  by rewrite bool_decide_eq_false_2 by lia.
Qed.

Lemma parseline_blank n argv :
  n + 1 < MAXLINE → 0 < length argv →
  parseline (spaces n +:+ nl) argv = Ok (1%Z, None :: drop 1 argv).
Proof.
  intros Hn Hargv. unfold parseline. rewrite parse_args_spec.
  - rewrite tokens_of_blank. simpl. by rewrite bool_decide_eq_true_2 by lia.
  - rewrite length_append, length_spaces. simpl. lia.
Qed.

(** C3, as the code has it.  On a line with at least one token, [tok]
    being the last one found: when [tok] begins with the character [&]
    (whatever follows it), [parseline] returns 1 and removes [tok] from the
    argument vector; otherwise it returns 0 and removes nothing. *)
Theorem parseline_background_flag
    (cmdline : string) (argv : list (option string)) (tok : string) :
  0 < String.length cmdline < MAXLINE →
  length (tokens_of cmdline) < length argv →
  last (tokens_of cmdline) = Some tok →
  ∃ (b : Z) (argv' : list (option string)),
    parseline cmdline argv = Ok (b, argv')
    ∧ if opens_with "&" tok
      then b = 1%Z ∧ argv_tokens argv' = removelast (tokens_of cmdline)
      else b = 0%Z ∧ argv_tokens argv' = tokens_of cmdline.
Proof.
  intros Hlen Hfit Hlast.
  destruct (parseline_spec cmdline argv Hlen Hfit) as (argv' & Hp & Htoks & _).
  exists (strip_bg (tokens_of cmdline)).1, argv'. split; [done |].
  rewrite Htoks. unfold strip_bg. rewrite Hlast, starts_with_amp_opens.
  by destruct (opens_with "&" tok).
Qed.

(** C4.  A line of 128 one-letter arguments, 256 characters with its
    newline, makes [parseline] store outside the MAXARGS entries of the
    array [eval] hands it: the NULL that ends the vector goes to index 128. *)
Theorem parseline_overflows_argv (junk : nat → option string) :
  String.length (many_args 127 +:+ "a" +:+ nl) = 256
  ∧ length (tokens_of (many_args 127 +:+ "a" +:+ nl)) = 128
  ∧ parseline (many_args 127 +:+ "a" +:+ nl) (auto_array junk MAXARGS)
    = Fault (ArgvOverflow 128).
Proof.
  split; [by vm_compute |]. split; [by vm_compute |].
  rewrite parseline_overflow.
  - by rewrite length_auto_array.
  - vm_compute. lia.
  - rewrite length_auto_array. vm_compute. lia.
Qed.

(** C6, as the code has it.  For a line of words separated by single
    spaces and ended by a newline, where a plain word is not empty, holds
    no space and does not open with a quote, and a quoted word is typed
    between two single quotes and holds none: [parseline] finds the words'
    contents, a quoted word being one token without its quotes and with
    its spaces; the argument vector it leaves is that sequence, less its
    last token when that one begins with [&]. *)
Theorem parseline_words (ws : list word) (junk : nat → option string) :
  forallb word_ok ws = true →
  String.length (line_of ws) < MAXLINE →
  length ws < MAXARGS →
  tokens_of (line_of ws) = content <$> ws
  ∧ ∃ argv' : list (option string),
      parseline (line_of ws) (auto_array junk MAXARGS)
      = Ok ((strip_bg (content <$> ws)).1, argv')
      ∧ argv_tokens argv'
        = match last (content <$> ws) with
          | Some tok =>
              if opens_with "&" tok then removelast (content <$> ws)
              else content <$> ws
          | None => []
          end.
Proof.
  intros Hok Hlen Hargs.
  pose proof (tokens_of_line ws Hok) as Htoks. split; [done |].
  destruct (parseline_spec (line_of ws) (auto_array junk MAXARGS))
    as (argv' & Hp & Hv & _).
  - split; [| done]. unfold line_of. rewrite length_append. simpl. lia.
  - by rewrite Htoks, length_fmap, length_auto_array.
  - rewrite Htoks in Hp, Hv. exists argv'. split; [done |].
    rewrite Hv. unfold strip_bg.
    destruct (last (content <$> ws)) as [tok |]; [| done].
    rewrite starts_with_amp_opens. by destruct (opens_with "&" tok).
Qed.

(** C10, as the code has it.  For a line that holds nothing but space
    characters in front of its newline, [parseline] returns 1, the value
    that reports a background job, and leaves an empty argument vector in
    the array of [eval]. *)
Theorem parseline_blank_returns_1 (n : nat) (junk : nat → option string) :
  n + 1 < MAXLINE →
  ∃ argv' : list (option string),
    parseline (spaces n +:+ nl) (auto_array junk MAXARGS) = Ok (1%Z, argv')
    ∧ argv_tokens argv' = []
    ∧ argv' !! 0 = Some None.
Proof.
  intros Hn. eexists. split.
  - apply parseline_blank; [done |].
    rewrite length_auto_array. unfold MAXARGS. lia.
  - done.
Qed.

End ParserFacts.

(** ** The tracking variables under stop, resume, interrupt and reap *)

Section JobControl.

Context `{Platform}.

Ltac slots :=
  repeat match goal with
         | |- context [bool_decide ?P] => destruct (bool_decide_reflect P)
         | H : context [bool_decide ?P] |- _ =>
             destruct (bool_decide_reflect P)
         end;
  simpl in *; try congruence; try lia.

Lemma exclusive_spec st :
  exclusive st = true ↔
  ¬ (g_runningPid st ≠ 0%Z ∧ g_runningPid st = g_suspendedPid st).
Proof. unfold exclusive. slots; intuition congruence. Qed.

(** [makefg] exchanges the two slots. *)
Lemma makefg_slots st :
  g_runningPid (makefg st) = g_suspendedPid st
  ∧ g_suspendedPid (makefg st) = g_runningPid st.
Proof. unfold makefg. by case_bool_decide. Qed.

Lemma makefg_exclusive st : exclusive st = true → exclusive (makefg st) = true.
Proof.
  rewrite !exclusive_spec. destruct (makefg_slots st) as [-> ->].
  intros Hex [Hnz Heq]. apply Hex. split; congruence.
Qed.

Lemma sigint_handler_slots st :
  g_runningPid (sigint_handler st) = g_runningPid st
  ∧ g_suspendedPid (sigint_handler st) = g_suspendedPid st.
Proof. unfold sigint_handler. by case_bool_decide. Qed.

Lemma sigtstp_handler_exclusive st :
  exclusive st = true → exclusive (sigtstp_handler st) = true.
Proof.
  intros Hex. unfold sigtstp_handler. case_bool_decide; [done |].
  by apply makefg_exclusive.
Qed.

(** Reaping writes nothing but zero, and only to the foreground slot. *)
Lemma sigchld_handler_slots reaped st :
  (g_runningPid (sigchld_handler reaped st) = g_runningPid st
   ∨ g_runningPid (sigchld_handler reaped st) = 0%Z)
  ∧ g_suspendedPid (sigchld_handler reaped st) = g_suspendedPid st.
Proof.
  revert st. induction reaped as [| [pid status] rest IH]; intros st; simpl.
  - by split; [left |].
  - case_bool_decide; [| by split; [left |]].
    case_bool_decide.
    + destruct (IH (set_running 0
                      (if WIFSIGNALED status
                          && bool_decide (WTERMSIG status = signo SIGINT)
                       then printf
                              ("Job (" +:+ dec pid +:+ ") terminated by signal "
                               +:+ dec (signo SIGINT) +:+ nl) st
                       else st))) as [Hr Hs].
      split.
      * right. destruct Hr as [Hr | Hr]; rewrite Hr; done.
      * rewrite Hs. by destruct (WIFSIGNALED status && _).
    + apply IH.
Qed.

Lemma sigchld_handler_exclusive reaped st :
  exclusive st = true → exclusive (sigchld_handler reaped st) = true.
Proof.
  rewrite !exclusive_spec.
  destruct (sigchld_handler_slots reaped st) as [[-> | ->] ->]; tauto.
Qed.

Lemma apply_op_exclusive st op :
  exclusive st = true → exclusive (apply_op st op) = true.
Proof.
  destruct op; simpl.
  - apply sigtstp_handler_exclusive.
  - apply makefg_exclusive.
  - rewrite !exclusive_spec.
    by destruct (sigint_handler_slots st) as [-> ->].
  - apply sigchld_handler_exclusive.
Qed.

Lemma states_along_exclusive ops st :
  exclusive st = true →
  Forall (λ st', exclusive st' = true) (states_along ops st).
Proof.
  revert st. induction ops as [| op rest IH]; intros st Hex; simpl.
  - by constructor.
  - constructor; [done |]. by apply IH, apply_op_exclusive.
Qed.

(** C1.  A job is launched into a shell that tracks nothing else: its id
    [pid] is in the foreground slot and the suspended slot is empty.
    Whatever stop, resume, interrupt and reap operations follow, in every
    state passed through the two slots never hold the same non-zero
    process-group id. *)
Theorem single_job_slots_exclusive
    (pid : Z) (out : list string) (sent : list (Z * signal))
    (ops : list job_op) :
  Forall (λ st, ¬ (g_runningPid st ≠ 0%Z
                   ∧ g_runningPid st = g_suspendedPid st))
         (states_along ops (Shell pid 0 out sent)).
Proof.
  eapply Forall_impl.
  - apply states_along_exclusive. apply exclusive_spec. simpl. lia.
  - intros st. apply exclusive_spec.
Qed.

(** C7.  When the first [waitpid] of the child handler returns nothing
    collectable, the handler returns the shell state as it found it: both
    tracking variables, the output and the signals sent are unchanged. *)
Theorem sigchld_handler_nothing_collectable
    (reaped : list (Z * Z)) (st : shell) :
  nothing_collectable reaped = true → sigchld_handler reaped st = st.
Proof.
  destruct reaped as [| [pid status] rest]; simpl; [done |].
  intros Hpid%bool_decide_eq_true. case_bool_decide; [lia | done].
Qed.

(** C9, as the code has it.  When the terminal-stop handler runs with a
    foreground job recorded and another job recorded as suspended, it
    prints the notice, sends the stop signal to the foreground group and
    the continue signal to the suspended group, and exchanges the slots:
    the stopped job becomes the suspended one and the previously suspended
    id is now the foreground id, so it is still tracked. *)
Theorem sigtstp_handler_swaps (st : shell) :
  g_runningPid st ≠ 0%Z → g_suspendedPid st ≠ 0%Z →
  g_runningPid (sigtstp_handler st) = g_suspendedPid st
  ∧ g_suspendedPid (sigtstp_handler st) = g_runningPid st
  ∧ tracked (g_suspendedPid st) (sigtstp_handler st) = true
  ∧ kills (sigtstp_handler st)
    = kills st ++ [((- g_runningPid st)%Z, SIGTSTP);
                   ((- g_suspendedPid st)%Z, SIGCONT)]
  ∧ output (sigtstp_handler st)
    = output st ++ ["Job (" +:+ dec (g_runningPid st)
                    +:+ ") stopped by signal " +:+ dec (signo SIGTSTP)
                    +:+ nl].
Proof.
  intros Hr Hs. unfold sigtstp_handler, tracked.
  case_bool_decide; [done |].
  unfold makefg. simpl. case_bool_decide; [| done]. simpl.
  rewrite bool_decide_eq_true_2 by done.
  by rewrite <- app_assoc.
Qed.

End JobControl.

(** ** eval: dispatch, blank lines and the signal mask around the fork *)

Section Eval.

Context `{Platform}.

Implicit Types (c : config) (ch : choice) (s : signal) (p : point).

Lemma dead_point_stuck ch c : alive (pc c) = false → step ch c = None.
Proof. unfold step. by intros ->. Qed.

(** C5, as the code has it.  When the first token is [quit], the
    dispatcher calls [exit (0)] there and then: the process is gone, with
    the tracking variables, the output and the signals sent as they were,
    so nothing was done about the children.  A first token [exit] is not
    a built-in: the dispatcher returns 0 and [eval] goes on to the
    launcher. *)
Theorem builtin_quit_exits_exit_launches (c : config) (ret : Z) :
  pc c = P_builtin →
  (argv c !! 0 = Some (Some "quit") →
   builtin_cmd (argv c) = Ok (Exits 0)
   ∧ eval ret c = Some (at_point (P_exit 0) c)
   ∧ vars (at_point (P_exit 0) c) = vars c
   ∧ ∀ ch, step ch (at_point (P_exit 0) c) = None)
  ∧ (argv c !! 0 = Some (Some "exit") →
     builtin_cmd (argv c) = Ok (Returns 0)
     ∧ eval ret c = Some (at_point P_block c)).
Proof.
  intros Hpc. unfold eval, builtin_cmd. rewrite Hpc.
  split; intros ->; simpl; [| done].
  do 3 (split; [done |]). intros ch. by apply dead_point_stuck.
Qed.

(** C8, as the code has it.  [eval] on a line that holds nothing but
    space characters in front of its newline: [parseline] leaves an empty
    argument vector, and the one step [eval] takes is its return; it does
    not reach the fork, and the tracking variables, the output, the
    signals sent, the mask and the pending signals are as before. *)
Theorem eval_blank_line_is_noop
    (n : nat) (junk : nat → option string) (st : shell)
    (mask pend : list signal) (ret : Z) :
  n + 1 < MAXLINE →
  ∃ c' : config,
    eval ret (enter_eval (spaces n +:+ nl) junk st mask pend) = Some c'
    ∧ argv_tokens (argv c') = []
    ∧ pc c' = P_return
    ∧ vars c' = st
    ∧ sigmask c' = mask
    ∧ pending c' = pend
    ∧ eval ret c' = None.
Proof.
  intros Hn. unfold eval, enter_eval. simpl.
  rewrite bool_decide_eq_false_2
    by (rewrite length_append, length_spaces; simpl; lia).
  rewrite parseline_blank
    by (rewrite ?length_auto_array; unfold MAXARGS; lia).
  simpl. eexists. split; [done |]. done.
Qed.

(** *** Signal sets *)

Lemma sigismember_spec mask s : sigismember mask s = true ↔ s ∈ mask.
Proof. unfold sigismember. apply bool_decide_eq_true. Qed.

Lemma elem_of_sigaddset mask s s' : s' ∈ sigaddset mask s ↔ s' ∈ mask ∨ s' = s.
Proof.
  unfold sigaddset. destruct (sigismember mask s) eqn:Hin.
  - apply sigismember_spec in Hin. split; [by left | by intros [? | ->]].
  - rewrite elem_of_app, list_elem_of_singleton. done.
Qed.

Lemma elem_of_sig_block set mask s :
  s ∈ sig_block set mask ↔ s ∈ mask ∨ s ∈ set.
Proof.
  unfold sig_block. revert mask.
  induction set as [| s' set IH]; intros mask; simpl.
  - rewrite elem_of_nil. tauto.
  - rewrite IH, elem_of_sigaddset, elem_of_cons. tauto.
Qed.

(** The set [eval] builds at lines 225-228 holds the three relayed
    signals, so they are in the mask once it is blocked. *)
Lemma relayed_blocked mask s :
  relayed s = true → sigismember (sig_block relayed_set mask) s = true.
Proof.
  intros Hrel. rewrite sigismember_spec, elem_of_sig_block. right.
  apply sigismember_spec. by destruct s.
Qed.

(** *** The mask discipline holds along every run of the launcher *)

Lemma run_handler_frame s reaped c :
  sigmask (run_handler s reaped c) = sigmask c
  ∧ saved (run_handler s reaped c) = saved c
  ∧ pc (run_handler s reaped c)
    = match s with SIGQUIT => P_exit 1 | _ => pc c end.
Proof. by destruct s. Qed.

Lemma step_launcher_inv ch c c' :
  launcher_inv c → step ch c = Some c' → launcher_inv c'.
Proof.
  unfold step. destruct (alive (pc c)) eqn:Halive; [| done].
  destruct ch as [s | s reaped | ret].
  - intros Hinv [= <-]. exact Hinv.
  - destruct (_ && _); [| done]. intros Hinv [= <-].
    unfold launcher_inv in *.
    destruct (run_handler_frame s reaped
                (with_woken true
                   (with_pending (sigdelset (pending c) s) c)))
      as (-> & -> & ->).
    destruct s; done.
  - unfold eval, waitfg, launcher_inv.
    destruct (pc c) as [| | | [] | [] | | | | | | | | | |] eqn:Hpc;
      try done; intros Hinv Hstep;
      repeat case_match; simplify_eq; simpl; try done.
    intros s. apply (relayed_blocked (sigmask c) s).
Qed.

Lemma exec_cons ch sched c tr c' :
  exec (ch :: sched) c = Some (tr, c') →
  ∃ c1 tr1, step ch c = Some c1 ∧ exec sched c1 = Some (tr1, c')
            ∧ tr = (c, ch) :: tr1.
Proof.
  simpl. destruct (step ch c) as [c1 |]; [| done].
  destruct (exec sched c1) as [[tr1 c2] |] eqn:Hrest; [| done].
  intros [= <- <-]. by exists c1, tr1.
Qed.

(** Every step recorded in a trace was enabled where it was taken, and
    was taken from a configuration satisfying the discipline. *)
Lemma exec_trace sched c tr c' :
  launcher_inv c → exec sched c = Some (tr, c') →
  ∀ i ci ch, tr !! i = Some (ci, ch) →
    launcher_inv ci ∧ is_Some (step ch ci).
Proof.
  revert c tr. induction sched as [| ch0 sched IH]; intros c tr Hinv Hexec.
  - simpl in Hexec. by simplify_eq.
  - apply exec_cons in Hexec as (c1 & tr1 & Hstep & Hexec & ->).
    intros [| i] ci ch Hi; simpl in Hi.
    + by simplify_eq.
    + eapply IH; [| done..]. by eapply step_launcher_inv.
Qed.

(** A relayed signal is not delivered where the discipline has it in the
    mask. *)
Lemma relayed_handler_point c s reaped :
  launcher_inv c → is_Some (step (Handle s reaped) c) → relayed s = true →
  pc c = P_block ∨ pc c = P_suspend In_eval ∨ pc c = P_return.
Proof.
  unfold step, launcher_inv. intros Hinv [c' Hstep] Hrel.
  destruct (alive (pc c)) eqn:Halive; [| done].
  destruct (sigismember (pending c) s); [| done]. simpl in Hstep.
  destruct (sigismember (sigmask c) s) eqn:Hmask; [done |].
  destruct (pc c) as [| | | [] | [] | | | | | | | | | |];
    try done; try tauto; by rewrite Hinv in Hmask.
Qed.

(** Once the main flow has forked, no relayed handler runs until the
    parent has stored the pid. *)
Lemma no_relayed_handler_before_record sched c tr c' :
  launcher_inv c → awaiting_record (pc c) = true →
  exec sched c = Some (tr, c') →
  ∀ j cj s reaped, tr !! j = Some (cj, Handle s reaped) → relayed s = true →
    ∃ k ck ret, k < j ∧ tr !! k = Some (ck, Main ret) ∧ pc ck = P_record.
Proof.
  revert c tr.
  induction sched as [| ch0 sched IH]; intros c tr Hinv Hwait Hexec.
  - simpl in Hexec. by simplify_eq.
  - apply exec_cons in Hexec as (c1 & tr1 & Hstep & Hexec & ->).
    pose proof (step_launcher_inv _ _ _ Hinv Hstep) as Hinv1.
    intros j cj s reaped Hj Hrel.
    destruct j as [| j]; simpl in Hj.
    + simplify_eq.
      destruct (relayed_handler_point cj s reaped Hinv) as [Hp | [Hp | Hp]];
        [by eexists | done | ..]; by rewrite Hp in Hwait.
    + assert (awaiting_record (pc c1) = true
              ∨ (pc c = P_record ∧ ∃ ret, ch0 = Main ret))
        as [Hwait1 | [Hrec [ret ->]]].
      { revert Hstep. unfold step.
        destruct (alive (pc c)) eqn:Halive; [| done].
        destruct ch0 as [s0 | s0 reaped0 | ret0].
        - intros [= <-]. by left.
        - destruct (_ && _); [| done]. intros [= <-]. left.
          destruct (run_handler_frame s0 reaped0
                      (with_woken true
                         (with_pending (sigdelset (pending c) s0) c)))
            as (_ & _ & ->).
          by destruct s0.
        - unfold eval, waitfg.
          destruct (pc c) as [| | | [] | [] | | | | | | | | | |] eqn:Hpc;
            try done.
          + intros Hstep. left. repeat case_match; by simplify_eq.
          + intros _. right. split; [done | by exists ret0]. }
      * destruct (IH c1 tr1 Hinv1 Hwait1 Hexec j cj s reaped Hj Hrel)
          as (k & ck & ret & Hk & Hlook & Hpc).
        exists (S k), ck, ret. split; [lia | done].
      * exists 0, c, ret. split; [lia | done].
Qed.

Lemma exec_suffix sched c tr c' i ci ch :
  exec sched c = Some (tr, c') → tr !! i = Some (ci, ch) →
  ∃ c1, step ch ci = Some c1
        ∧ exec (drop (S i) sched) c1 = Some (drop (S i) tr, c').
Proof.
  revert c tr i. induction sched as [| ch0 sched IH]; intros c tr i Hexec Hi.
  - simpl in Hexec. by simplify_eq.
  - apply exec_cons in Hexec as (c1 & tr1 & Hstep & Hexec & ->).
    destruct i as [| i]; simpl in Hi.
    + simplify_eq. by exists c1.
    + by apply (IH c1 tr1 i).
Qed.

Lemma fork_step_awaits_record ret c c1 :
  pc c = P_fork → step (Main ret) c = Some c1 →
  awaiting_record (pc c1) = true.
Proof.
  intros Hpc. unfold step, eval. rewrite Hpc. simpl.
  intros Hstep. repeat case_match; by simplify_eq.
Qed.

(** C2.  In every run of the launcher, whatever signals arrive and
    whenever: (1) at the fork, at the store of the child's pid into
    [g_runningPid], and at every later statement of [eval] up to the
    restore, the three relayed signals are in the mask; (2) the handler of
    a relayed signal runs only before [eval] has blocked them, inside the
    [sigsuspend] of [waitfg], or after [eval] has returned; (3) once the
    fork has been executed, every run of a relayed handler comes after
    the store of the pid. *)
Theorem launcher_masks_fork_to_record
    (sched : list choice) (c0 c : config) (tr : list (config * choice)) :
  pc c0 = P_block →
  exec sched c0 = Some (tr, c) →
  launcher_discipline tr.
Proof.
  intros Hpc Hexec.
  assert (launcher_inv c0) as Hinv0 by (unfold launcher_inv; by rewrite Hpc).
  pose proof (exec_trace _ _ _ _ Hinv0 Hexec) as Htrace.
  repeat split.
  - intros i ci ch s Hi Hmasked Hrel.
    destruct (Htrace i ci ch Hi) as [Hinv _].
    unfold launcher_inv in Hinv.
    destruct (pc ci) as [| | | [] | [] | | | | | | | | | |];
      try done; by apply Hinv.
  - intros i ci s reaped Hi Hrel.
    destruct (Htrace i ci _ Hi) as [Hinv Hen].
    by eapply relayed_handler_point.
  - intros i j ci cj ret s reaped Hi Hfork Hj Hrel Hij.
    destruct (Htrace i ci _ Hi) as [Hinv _].
    destruct (exec_suffix _ _ _ _ _ _ _ Hexec Hi) as (c1 & Hstep & Hrest).
    destruct (no_relayed_handler_before_record _ _ _ _
                (step_launcher_inv _ _ _ Hinv Hstep)
                (fork_step_awaits_record _ _ _ Hfork Hstep) Hrest
                (j - S i) cj s reaped) as (k & ck & ret' & Hk & Hlook & Hrec);
      [| done |].
    + rewrite lookup_drop. by replace (S i + (j - S i)) with j by lia.
    + rewrite lookup_drop in Hlook.
      exists (S i + k), ck, ret'. split; [lia | done].
Qed.

End Eval.

(** ** The theorems at concrete inputs *)

Lemma launcher_masks_fork_to_record_witness :
  pc at_launch = P_block
  ∧ ∃ tr c, @exec linux busy_schedule at_launch = Some (tr, c)
            ∧ pc c = P_return
            ∧ g_runningPid (vars c) = 0%Z
            ∧ launcher_discipline tr.
Proof.
  split; [reflexivity |].
  eexists _, _. split; [vm_compute; reflexivity |].
  split; [reflexivity |]. split; [reflexivity |].
  eapply (@launcher_masks_fork_to_record linux busy_schedule at_launch);
    [reflexivity | vm_compute; reflexivity].
Defined.

Lemma parseline_background_flag_witness :
  0 < String.length ("sleep 100 &" +:+ nl) < MAXLINE
  ∧ length (tokens_of ("sleep 100 &" +:+ nl))
    < length (auto_array no_junk MAXARGS)
  ∧ last (tokens_of ("sleep 100 &" +:+ nl)) = Some "&"
  ∧ ∃ (b : Z) (argv' : list (option string)),
      parseline ("sleep 100 &" +:+ nl) (auto_array no_junk MAXARGS)
      = Ok (b, argv')
      ∧ b = 1%Z
      ∧ argv_tokens argv' = ["sleep"; "100"].
Proof.
  assert (0 < String.length ("sleep 100 &" +:+ nl) < MAXLINE) as Hlen
    by (vm_compute; lia).
  assert (length (tokens_of ("sleep 100 &" +:+ nl))
          < length (auto_array no_junk MAXARGS)) as Hfit
    by (vm_compute; lia).
  assert (last (tokens_of ("sleep 100 &" +:+ nl)) = Some "&") as Hlast
    by reflexivity.
  do 3 (split; [assumption |]).
  destruct (parseline_background_flag _ _ _ Hlen Hfit Hlast)
    as (b & argv' & Hparse & Hb & Htoks).
  exists b, argv'. split; [exact Hparse |]. split; [exact Hb |].
  exact Htoks.
Defined.

(** The last token is [&x], not [&], and yet the value returned is 1 and
    the token is gone. *)
Lemma parseline_background_flag_not_exact :
  last (tokens_of ("ls &x" +:+ nl)) = Some "&x"
  ∧ "&x" ≠ "&"
  ∧ ∃ argv' : list (option string),
      parseline ("ls &x" +:+ nl) (auto_array no_junk MAXARGS) = Ok (1%Z, argv')
      ∧ argv_tokens argv' = ["ls"].
Proof.
  split; [reflexivity |]. split; [discriminate |].
  eexists. split; [vm_compute; reflexivity | reflexivity].
Qed.

Lemma builtin_quit_exits_exit_launches_witness :
  pc (at_builtin "quit") = P_builtin
  ∧ argv (at_builtin "quit") !! 0 = Some (Some "quit")
  ∧ @eval linux 0 (at_builtin "quit")
    = Some (at_point (P_exit 0) (at_builtin "quit"))
  ∧ pc (at_builtin "exit") = P_builtin
  ∧ argv (at_builtin "exit") !! 0 = Some (Some "exit")
  ∧ @eval linux 0 (at_builtin "exit")
    = Some (at_point P_block (at_builtin "exit")).
Proof.
  split; [reflexivity |]. split; [reflexivity |].
  split.
  { apply (proj1 (@builtin_quit_exits_exit_launches linux
                    (at_builtin "quit") 0 eq_refl) eq_refl). }
  split; [reflexivity |]. split; [reflexivity |].
  apply (proj2 (@builtin_quit_exits_exit_launches linux
                  (at_builtin "exit") 0 eq_refl) eq_refl).
Defined.

(** [exit] alone on its line: after the parse and the dispatch [eval] is
    at the launcher, about to block the signals and fork; the process has
    not exited. *)
Lemma exit_is_launched :
  ∃ tr c,
    @exec linux [Main 0; Main 0]
      (enter_eval ("exit" +:+ nl) no_junk idle_shell [] []) = Some (tr, c)
    ∧ argv_tokens (argv c) = ["exit"]
    ∧ pc c = P_block
    ∧ pc c ≠ P_exit 0.
Proof.
  eexists _, _. split; [vm_compute; reflexivity |].
  split; [reflexivity |]. split; [reflexivity | discriminate].
Qed.

Lemma parseline_words_witness :
  forallb word_ok [Plain "echo"; Quoted "a b"; Plain "c"] = true
  ∧ String.length (line_of [Plain "echo"; Quoted "a b"; Plain "c"]) < MAXLINE
  ∧ length [Plain "echo"; Quoted "a b"; Plain "c"] < MAXARGS
  ∧ line_of [Plain "echo"; Quoted "a b"; Plain "c"] = "echo 'a b' c" +:+ nl
  ∧ ∃ argv' : list (option string),
      parseline ("echo 'a b' c" +:+ nl) (auto_array no_junk MAXARGS)
      = Ok (0%Z, argv')
      ∧ argv_tokens argv' = ["echo"; "a b"; "c"].
Proof.
  assert (forallb word_ok [Plain "echo"; Quoted "a b"; Plain "c"] = true)
    as Hok by reflexivity.
  assert (String.length (line_of [Plain "echo"; Quoted "a b"; Plain "c"])
          < MAXLINE) as Hlen by (vm_compute; lia).
  assert (length [Plain "echo"; Quoted "a b"; Plain "c"] < MAXARGS) as Hargs
    by (vm_compute; lia).
  do 3 (split; [assumption |]). split; [reflexivity |].
  destruct (parseline_words _ no_junk Hok Hlen Hargs)
    as (_ & argv' & Hparse & Htoks).
  exists argv'. split; [exact Hparse | exact Htoks].
Defined.

(** [ls &]: two words separated by one space, no quote; split at the
    space they are [ls] and [&], and the argument vector holds [ls] alone. *)
Lemma parseline_drops_split_word :
  line_of [Plain "ls"; Plain "&"] = "ls &" +:+ nl
  ∧ has_char "'" ("ls &" +:+ nl) = false
  ∧ ∃ argv' : list (option string),
      parseline ("ls &" +:+ nl) (auto_array no_junk MAXARGS) = Ok (1%Z, argv')
      ∧ argv_tokens argv' = ["ls"]
      ∧ argv_tokens argv' ≠ ["ls"; "&"].
Proof.
  split; [reflexivity |]. split; [reflexivity |].
  eexists. split; [vm_compute; reflexivity |].
  split; [reflexivity | discriminate].
Qed.

Lemma sigchld_handler_nothing_collectable_witness :
  nothing_collectable [(0, 0)]%Z = true
  ∧ @sigchld_handler linux [(0, 0)]%Z (Shell 77 0 [] []) = Shell 77 0 [] [].
Proof.
  split; [reflexivity |].
  apply (@sigchld_handler_nothing_collectable linux). reflexivity.
Defined.

Lemma eval_blank_line_is_noop_witness :
  3 + 1 < MAXLINE
  ∧ ∃ c' : config,
      @eval linux 0
        (enter_eval (spaces 3 +:+ nl) no_junk (Shell 0 55 [] []) [] [SIGCHLD])
      = Some c'
      ∧ argv_tokens (argv c') = []
      ∧ pc c' = P_return
      ∧ vars c' = Shell 0 55 [] []
      ∧ sigmask c' = []
      ∧ pending c' = [SIGCHLD]
      ∧ @eval linux 0 c' = None.
Proof.
  assert (3 + 1 < MAXLINE) as Hn by (vm_compute; lia).
  split; [assumption |].
  apply (@eval_blank_line_is_noop linux 3 no_junk (Shell 0 55 [] []) []
           [SIGCHLD] 0 Hn).
Defined.

Lemma sigtstp_handler_swaps_witness :
  g_runningPid (Shell 200 100 [] []) ≠ 0%Z
  ∧ g_suspendedPid (Shell 200 100 [] []) ≠ 0%Z
  ∧ g_runningPid (@sigtstp_handler linux (Shell 200 100 [] [])) = 100%Z
  ∧ g_suspendedPid (@sigtstp_handler linux (Shell 200 100 [] [])) = 200%Z.
Proof.
  assert (g_runningPid (Shell 200 100 [] []) ≠ 0%Z) as Hr by discriminate.
  assert (g_suspendedPid (Shell 200 100 [] []) ≠ 0%Z) as Hs by discriminate.
  do 2 (split; [assumption |]).
  destruct (@sigtstp_handler_swaps linux (Shell 200 100 [] []) Hr Hs)
    as (Hrun & Hsus & _).
  split; [exact Hrun | exact Hsus].
Defined.

(** Job 200 is stopped while job 100 is suspended: afterwards 100 is still
    recorded, in the foreground slot. *)
Lemma second_stop_keeps_suspended_id :
  ¬ (tracked 100 (@sigtstp_handler linux (Shell 200 100 [] [])) = false).
Proof. vm_compute. discriminate. Qed.

Lemma parseline_blank_returns_1_witness :
  0 + 1 < MAXLINE
  ∧ ∃ argv' : list (option string),
      parseline (spaces 0 +:+ nl) (auto_array no_junk MAXARGS) = Ok (1%Z, argv')
      ∧ argv_tokens argv' = []
      ∧ argv' !! 0 = Some None.
Proof.
  assert (0 + 1 < MAXLINE) as Hn by (vm_compute; lia).
  split; [assumption |].
  apply (parseline_blank_returns_1 0 no_junk Hn).
Defined.

(** A line that holds a tab alone: the tab is a token, [eval] does not
    return; it forks and records the child. *)
Lemma eval_tab_line_forks :
  ∃ tr c,
    @exec linux [Main 0; Main 0; Main 0; Main 77; Main 0]
      (enter_eval (tab +:+ nl) no_junk idle_shell [] []) = Some (tr, c)
    ∧ argv_tokens (argv c) = [tab]
    ∧ (∃ cf, tr !! 3 = Some (cf, Main 77) ∧ pc cf = P_fork)
    ∧ g_runningPid (vars c) = 77%Z
    ∧ vars c ≠ idle_shell.
Proof.
  eexists _, _. split; [vm_compute; reflexivity |].
  split; [reflexivity |]. split; [by eexists |].
  split; [reflexivity | discriminate].
Qed.

(** On the same line [parseline] returns 0 and one token. *)
Lemma parseline_tab_line_returns_0 :
  ∃ argv' : list (option string),
    parseline (tab +:+ nl) (auto_array no_junk MAXARGS) = Ok (0%Z, argv')
    ∧ argv_tokens argv' = [tab].
Proof. eexists. split; [vm_compute; reflexivity | reflexivity]. Qed.

(** ** The shell at work *)

Example parseline_plain :
  (λ r, match r with Ok (b, a) => Some (b, argv_tokens a) | Fault _ => None end)
    (parseline ("ls  -l   /tmp" +:+ nl) (auto_array no_junk MAXARGS))
  = Some (0%Z, ["ls"; "-l"; "/tmp"]).
Proof. vm_compute. reflexivity. Qed.

(** A quote that is never closed ends the vector in front of it. *)
Example parseline_open_quote :
  (λ r, match r with Ok (b, a) => Some (b, argv_tokens a) | Fault _ => None end)
    (parseline ("echo 'abc def" +:+ nl) (auto_array no_junk MAXARGS))
  = Some (0%Z, ["echo"]).
Proof. vm_compute. reflexivity. Qed.

(** [ls] runs in the foreground and exits: the shell sleeps in
    [sigsuspend] until the child handler has cleared the foreground slot. *)
Example foreground_job_runs :
  (λ r, match r with Some (_, c) => Some (pc c, vars c, sigmask c) | None => None end)
    (@exec linux
       [Main 0; Main 0; Main 0; Main 77; Main 0; Main 0; Main 0;
        Raise SIGCHLD; Handle SIGCHLD [(77, 0)]%Z; Main 0; Main 0; Main 0]
       (enter_eval ("ls" +:+ nl) no_junk idle_shell [] []))
  = Some (P_return, Shell 0 0 [] [], []).
Proof. vm_compute. reflexivity. Qed.

(** While [sigsuspend] has not been woken the main flow cannot go on. *)
Example foreground_job_blocks :
  @exec linux [Main 0; Main 0; Main 0; Main 77; Main 0; Main 0; Main 0; Main 0]
    (enter_eval ("ls" +:+ nl) no_junk idle_shell [] []) = None.
Proof. vm_compute. reflexivity. Qed.

(** A SIGCHLD raised right after the fork is not delivered there. *)
Example early_sigchld_is_held :
  @exec linux
    [Main 0; Main 0; Main 0; Main 77; Raise SIGCHLD; Handle SIGCHLD [(77, 0)]%Z]
    (enter_eval ("ls" +:+ nl) no_junk idle_shell [] []) = None.
Proof. vm_compute. reflexivity. Qed.

(** [sleep 100 &]: the notice is printed and nothing is waited for. *)
Example background_job :
  (λ r, match r with Some (_, c) => Some (pc c, vars c) | None => None end)
    (@exec linux
       [Main 0; Main 0; Main 0; Main 77; Main 0; Main 0; Main 0; Main 0]
       (enter_eval ("sleep 100 &" +:+ nl) no_junk idle_shell [] []))
  = Some (P_return, Shell 0 0 ["(77) sleep 100 &" +:+ nl] []).
Proof. vm_compute. reflexivity. Qed.

(** ctrl-z on a foreground job, then [fg], then the job exits. *)
Example stop_then_fg :
  (λ r, match r with Some (_, c) => Some (pc c, vars c) | None => None end)
    (@exec linux
       [Main 0; Main 0; Main 0; Main 0; Raise SIGCHLD;
        Handle SIGCHLD [(77, 0)]%Z; Main 0; Main 0]
       (enter_eval ("fg" +:+ nl) no_junk
          (@sigtstp_handler linux (Shell 77 0 [] [])) [] []))
  = Some (P_return,
          Shell 0 0 ["Job (77) stopped by signal 20" +:+ nl]
                [((-77)%Z, SIGTSTP); ((-77)%Z, SIGCONT)]).
Proof. vm_compute. reflexivity. Qed.

(** A program that cannot be run: the child says so and exits with 1. *)
Example command_not_found :
  (λ r, match r with Some (_, c) => Some (pc c, output (vars c)) | None => None end)
    (@exec linux [Main 0; Main 0; Main 0; Main 0; Main (-1)]
       (enter_eval ("frob -x" +:+ nl) no_junk idle_shell [] []))
  = Some (P_exit 1, ["frob -x: Command not found" +:+ nl]).
Proof. vm_compute. reflexivity. Qed.

(** ** More on the line parser *)

Section ParserBounds.

Implicit Types (buf tok front after cmdline : string) (c a : ascii).
Implicit Types (argv : list (option string)) (toks : list string).

(** The number of turns allowed does not matter once it covers the
    buffer. *)
Lemma scan_fuel f1 f2 buf :
  String.length buf ≤ f1 → String.length buf ≤ f2 → scan f1 buf = scan f2 buf.
Proof.
  revert f2 buf. induction f1 as [| f1 IH]; intros f2 buf Hf1 Hf2.
  - destruct buf; [| simpl in Hf1; lia]. by destruct f2.
  - destruct f2 as [| f2].
    + by destruct buf; [| simpl in Hf2; lia].
    + cbn [scan]. destruct (find_delim buf) as [[tok after] |] eqn:Hfind;
        [| done].
      pose proof (find_delim_length _ _ _ Hfind).
      f_equal. apply IH; lia.
Qed.

Lemma tokens_of_scan_all cmdline :
  tokens_of cmdline = scan_all (skip_spaces (set_last " " cmdline)).
Proof. done. Qed.

Lemma scan_all_token buf tok after :
  find_delim buf = Some (tok, after) →
  scan_all buf = tok :: scan_all (skip_spaces after).
Proof.
  intros Hfind. pose proof (find_delim_length _ _ _ Hfind) as Hshort.
  unfold scan_all. destruct (String.length buf) as [| n] eqn:Hlen; [lia |].
  cbn [scan]. rewrite Hfind. f_equal. apply scan_fuel; lia.
Qed.

Lemma scan_all_end buf : find_delim buf = None → scan_all buf = [].
Proof.
  intros Hfind. unfold scan_all.
  destruct (String.length buf); [done |]. cbn [scan]. by rewrite Hfind.
Qed.

Lemma opens_with_skip_spaces buf : opens_with " " (skip_spaces buf) = false.
Proof.
  induction buf as [| a rest IH]; [done |].
  rewrite skip_spaces_cons. by destruct (Ascii.eqb a " ") eqn:Ha.
Qed.

(** A turn of the loop on a buffer that does not open with a space uses
    up two characters at least: a character of the token and the space
    after it, or the two quotes. *)
Lemma find_delim_two buf tok after :
  opens_with " " buf = false → find_delim buf = Some (tok, after) →
  String.length after + 2 ≤ String.length buf.
Proof.
  destruct buf as [| a rest]; [done |]. cbn [opens_with]. intros Ha.
  rewrite find_delim_cons. destruct (Ascii.eqb a "'").
  - intros Hfind%strchr_length. simpl. lia.
  - cbn [strchr]. rewrite Ha.
    destruct (strchr rest " ") as [[front after'] |] eqn:Hrest; [| done].
    intros [= <- <-]. apply strchr_length in Hrest. simpl. lia.
Qed.

Lemma scan_length_half fuel buf :
  opens_with " " buf = false →
  2 * length (scan fuel buf) ≤ String.length buf.
Proof.
  revert buf. induction fuel as [| fuel IH]; intros buf Hopen; [simpl; lia |].
  cbn [scan]. destruct (find_delim buf) as [[tok after] |] eqn:Hfind;
    [| simpl; lia].
  pose proof (find_delim_two _ _ _ Hopen Hfind).
  pose proof (skip_spaces_length after).
  pose proof (IH (skip_spaces after) (opens_with_skip_spaces after)).
  cbn [length]. lia.
Qed.

Lemma length_set_last c s : String.length (set_last c s) = String.length s.
Proof.
  induction s as [| a s IH]; [done |].
  destruct s as [| b s]; [done |].
  rewrite set_last_cons by done. simpl in *. by rewrite IH.
Qed.

(** A line has at most half as many tokens as characters. *)
Lemma tokens_of_length_half cmdline :
  2 * length (tokens_of cmdline) ≤ String.length cmdline.
Proof.
  unfold tokens_of.
  pose proof (scan_length_half
                (String.length (skip_spaces (set_last " " cmdline)))
                (skip_spaces (set_last " " cmdline))
                (opens_with_skip_spaces _)).
  pose proof (skip_spaces_length (set_last " " cmdline)).
  rewrite length_set_last in *. lia.
Qed.

(** X1.  For a line of 1 to MAXLINE - 1 characters, [parseline] returns
    normally exactly when the caller's array has more entries than the
    line has tokens; otherwise it stores at the first index past the
    array. *)
Theorem parseline_array_bound cmdline argv :
  0 < String.length cmdline < MAXLINE →
  ((∃ (b : Z) (argv' : list (option string)),
      parseline cmdline argv = Ok (b, argv'))
   ↔ length (tokens_of cmdline) < length argv)
  ∧ (length argv ≤ length (tokens_of cmdline) →
     parseline cmdline argv = Fault (ArgvOverflow (length argv))).
Proof.
  intros Hlen. split; [split |].
  - intros (b & argv' & Hok).
    destruct (decide (length (tokens_of cmdline) < length argv)); [done |].
    rewrite parseline_overflow in Hok by (done || lia). done.
  - intros Hfit.
    destruct (parseline_spec cmdline argv Hlen Hfit) as (argv' & Hp & _).
    by eexists _, _.
  - by apply parseline_overflow.
Qed.

(** X2.  A line of fewer than twice as many characters as the array has
    entries cannot overflow it: with the MAXARGS entries of [eval], every
    line of up to 255 characters is parsed without fault. *)
Theorem parseline_short_line_fits cmdline argv :
  0 < String.length cmdline < MAXLINE →
  String.length cmdline < 2 * length argv →
  ∃ (b : Z) (argv' : list (option string)),
    parseline cmdline argv = Ok (b, argv')
    ∧ argv_tokens argv' = (strip_bg (tokens_of cmdline)).2.
Proof.
  intros Hlen Hshort. pose proof (tokens_of_length_half cmdline).
  destruct (parseline_spec cmdline argv Hlen) as (argv' & Hp & Htoks & _);
    [lia |].
  by eexists _, _.
Qed.

(** The array as [parseline] leaves it. *)
Lemma parseline_shape cmdline argv :
  0 < String.length cmdline < MAXLINE →
  length (tokens_of cmdline) < length argv →
  ∃ rest : list (option string),
    parseline cmdline argv
    = Ok ((strip_bg (tokens_of cmdline)).1,
          (Some <$> (strip_bg (tokens_of cmdline)).2) ++ None :: rest)
    ∧ length ((Some <$> (strip_bg (tokens_of cmdline)).2) ++ None :: rest)
      = length argv.
Proof.
  intros Hlen Hfit. unfold parseline. rewrite parse_args_spec by done.
  rewrite bool_decide_eq_true_2 by done.
  destruct (tokens_of cmdline) as [| tok0 toks0] eqn:Htoks using rev_ind.
  - eexists. split; [done |]. simpl. rewrite length_drop. simpl in Hfit. lia.
  - clear IHtoks0. rename tok0 into tok, toks0 into toks.
    rewrite length_app in *. simpl in *.
    replace (length toks + 1) with (S (length toks)) by lia.
    assert (((Some <$> toks ++ [tok])
               ++ None :: drop (S (S (length toks))) argv) !! length toks
            = Some (Some tok)) as ->.
    { rewrite fmap_app, <- app_assoc.
      rewrite lookup_app_r by (rewrite length_fmap; lia).
      by rewrite length_fmap, Nat.sub_diag. }
    unfold strip_bg. rewrite last_snoc, removelast_last.
    destruct (starts_with_amp tok); simpl.
    + eexists. rewrite fmap_app, <- app_assoc.
      rewrite insert_app_r_alt by (rewrite length_fmap; lia).
      rewrite length_fmap, Nat.sub_diag. simpl. split; [done |].
      rewrite length_app, length_fmap. simpl. rewrite length_drop. lia.
    + eexists. split; [done |].
      rewrite length_app, length_fmap, length_app. simpl.
      rewrite length_drop. lia.
Qed.

(** X3.  Whenever [parseline] returns, the array has kept its size; its
    first entries point to the tokens found, in their order and less the
    last one when that one begins with [&]; the entry right after them is
    the NULL that ends the argument vector; the value returned is 1 when
    no token was found or the last one begins with [&], and 0 otherwise;
    and 0 comes with at least one argument. *)
Theorem parseline_null_terminated cmdline argv (b : Z)
    (argv' : list (option string)) :
  parseline cmdline argv = Ok (b, argv') →
  length argv' = length argv
  ∧ take (length (strip_bg (tokens_of cmdline)).2) argv'
    = Some <$> (strip_bg (tokens_of cmdline)).2
  ∧ argv' !! length (strip_bg (tokens_of cmdline)).2 = Some None
  ∧ b = (strip_bg (tokens_of cmdline)).1
  ∧ (b = 0%Z ∨ b = 1%Z)
  ∧ (b = 0%Z → (strip_bg (tokens_of cmdline)).2 ≠ []).
Proof.
  intros Hok.
  assert (0 < String.length cmdline < MAXLINE) as Hlen.
  { revert Hok. unfold parseline, parse_args.
    repeat case_bool_decide; try done; lia. }
  assert (length (tokens_of cmdline) < length argv) as Hfit.
  { destruct (decide (length (tokens_of cmdline) < length argv)); [done |].
    rewrite parseline_overflow in Hok by (done || lia). done. }
  destruct (parseline_shape cmdline argv Hlen Hfit) as (rest & Hp & Hsize).
  rewrite Hp in Hok. injection Hok as <- <-.
  split; [done |]. split.
  { rewrite take_app_length'; [done | by rewrite length_fmap]. }
  split.
  { rewrite lookup_app_r by (rewrite length_fmap; lia).
    by rewrite length_fmap, Nat.sub_diag. }
  split; [done |].
  unfold strip_bg. destruct (last (tokens_of cmdline)) as [tok |] eqn:Hlast.
  - destruct (starts_with_amp tok); simpl; [split; [by right | done] |].
    split; [by left |]. intros _ Hnil. by rewrite Hnil in Hlast.
  - simpl. split; [by right | done].
Qed.

(** *** Extra spaces and open quotes *)

Lemma set_last_app c s t :
  t ≠ "" → set_last c (s +:+ t) = s +:+ set_last c t.
Proof.
  intros Ht. induction s as [| a s IH]; [done |].
  rewrite !append_cons, set_last_cons, IH; [done |].
  destruct s; [by rewrite append_nil | done].
Qed.

Lemma skip_spaces_only n : skip_spaces (spaces n) = "".
Proof. induction n as [| n IH]; [done | exact IH]. Qed.

Lemma spaces_snoc n : spaces n +:+ " " = " " +:+ spaces n.
Proof.
  induction n as [| n IH]; [done |].
  change (spaces (S n)) with (String " " (spaces n)).
  rewrite append_cons, IH. done.
Qed.

Lemma has_char_app c s t :
  has_char c (s +:+ t) = has_char c s || has_char c t.
Proof.
  induction s as [| a s IH]; [done |].
  rewrite append_cons. cbn [has_char]. by rewrite IH, orb_assoc.
Qed.

Lemma strchr_none c s : has_char c s = false → strchr s c = None.
Proof.
  induction s as [| a s IH]; [done |]. cbn [has_char strchr].
  intros [-> Hs]%orb_false_iff. by rewrite IH.
Qed.

(** A well-formed word does not open with a space. *)
Lemma skip_spaces_word w R :
  word_ok w = true → skip_spaces (typed w +:+ R) = typed w +:+ R.
Proof.
  destruct w as [text | text]; simpl; intros Hw.
  - destruct text as [| a text]; [done |]. simpl in Hw.
    rewrite append_cons, skip_spaces_cons.
    by destruct (Ascii.eqb a " ").
  - done.
Qed.

(** One turn of the loop on a well-formed word followed by a space. *)
Lemma find_delim_word w R :
  word_ok w = true →
  ∃ after,
    find_delim (typed w +:+ " " +:+ R) = Some (content w, after)
    ∧ skip_spaces after = skip_spaces R.
Proof.
  destruct w as [text | text]; simpl; intros Hw.
  - destruct text as [| a text]; [done |].
    apply andb_true_iff in Hw as [[_ Hsp%negb_true_iff]%andb_true_iff
                                    Hq%negb_true_iff].
    simpl in Hq. exists R. split; [| done].
    rewrite append_cons, find_delim_cons, Hq.
    by rewrite <- append_cons, strchr_app_delim.
  - apply negb_true_iff in Hw. exists (" " +:+ R). split.
    + by rewrite append_nil, append_assoc, strchr_app_delim.
    + apply (skip_spaces_spaces 1).
Qed.

Lemma scan_all_word n w R :
  word_ok w = true →
  scan_all (skip_spaces (spaces n +:+ typed w +:+ " " +:+ R))
  = content w :: scan_all (skip_spaces R).
Proof.
  intros Hw. rewrite skip_spaces_spaces, skip_spaces_word by done.
  destruct (find_delim_word w R Hw) as (after & Hfind & Hskip).
  by rewrite (scan_all_token _ _ _ Hfind), Hskip.
Qed.

Lemma scan_all_padded ws T :
  forallb (λ nw, word_ok nw.2) ws = true →
  scan_all (skip_spaces (padded ws +:+ T))
  = (content <$> ws.*2) ++ scan_all (skip_spaces T).
Proof.
  induction ws as [| [n w] rest IH]; [done |]. simpl.
  intros [Hw Hrest]%andb_true_iff. csimpl.
  rewrite !append_assoc, scan_all_word by done.
  by rewrite IH.
Qed.

Lemma tokens_of_gap_line ws m :
  forallb (λ nw, word_ok nw.2) ws = true →
  tokens_of (gap_line ws m) = content <$> ws.*2.
Proof.
  intros Hok. rewrite tokens_of_scan_all. unfold gap_line, nl.
  rewrite !set_last_app by (by destruct m).
  change (set_last " " (String "010" "")) with " ".
  induction ws as [| [n w] rest IH].
  - simpl. rewrite append_nil, skip_spaces_spaces. done.
  - simpl in Hok. apply andb_true_iff in Hok as [Hw Hrest]. csimpl.
    destruct rest as [| nw rest].
    + rewrite append_assoc, spaces_snoc, scan_all_word by done.
      by rewrite skip_spaces_only.
    + change (gap_join ((n, w) :: nw :: rest))
        with (spaces n +:+ typed w +:+ " " +:+ gap_join (nw :: rest)).
      rewrite !append_assoc, scan_all_word by done.
      by rewrite IH.
Qed.

Lemma tokens_of_open_quote_line ws rest :
  forallb (λ nw, word_ok nw.2) ws = true →
  has_char "'" rest = false →
  tokens_of (open_quote_line ws rest) = content <$> ws.*2.
Proof.
  intros Hok Hrest. rewrite tokens_of_scan_all. unfold open_quote_line, nl.
  rewrite !set_last_app by (by destruct rest).
  change (set_last " " (String "010" "")) with " ".
  rewrite scan_all_padded by done.
  rewrite scan_all_end; [by rewrite app_nil_r |].
  change (skip_spaces ("'" +:+ rest +:+ " "))
    with (String "'" (rest +:+ " ")).
  rewrite find_delim_cons. change (Ascii.eqb "'" "'") with true. cbv iota.
  apply strchr_none. by rewrite has_char_app, Hrest.
Qed.

Lemma parseline_of_tokens cmdline toks (junk : nat → option string) :
  tokens_of cmdline = toks →
  0 < String.length cmdline < MAXLINE →
  length toks < MAXARGS →
  ∃ argv' : list (option string),
    parseline cmdline (auto_array junk MAXARGS) = Ok ((strip_bg toks).1, argv')
    ∧ argv_tokens argv' = (strip_bg toks).2.
Proof.
  intros <- Hlen Hfit.
  destruct (parseline_spec cmdline (auto_array junk MAXARGS) Hlen)
    as (argv' & Hp & Htoks & _); [by rewrite length_auto_array |].
  by exists argv'.
Qed.

(** X4.  Spaces in front of the first word, extra spaces between words and
    spaces in front of the newline change nothing: the tokens found are
    the words' contents, and the value returned and the argument vector
    are the ones of the same words separated by single spaces. *)
Theorem parseline_ignores_extra_spaces
    (ws : list (nat * word)) (m : nat) (junk : nat → option string) :
  forallb (λ nw, word_ok nw.2) ws = true →
  String.length (gap_line ws m) < MAXLINE →
  length ws < MAXARGS →
  tokens_of (gap_line ws m) = tokens_of (line_of ws.*2)
  ∧ ∃ argv' : list (option string),
      parseline (gap_line ws m) (auto_array junk MAXARGS)
      = Ok ((strip_bg (content <$> ws.*2)).1, argv')
      ∧ argv_tokens argv' = (strip_bg (content <$> ws.*2)).2.
Proof.
  intros Hok Hlen Hargs.
  pose proof (tokens_of_gap_line ws m Hok) as Htoks. split.
  - rewrite Htoks, tokens_of_line; [done |].
    clear -Hok. induction ws as [| [n w] rest IH]; [done |].
    simpl in *. apply andb_true_iff in Hok as [-> Hrest]. by apply IH.
  - apply parseline_of_tokens; [done | | by rewrite !length_fmap].
    split; [| done]. unfold gap_line. rewrite !length_append. simpl. lia.
Qed.

(** X5.  A quote that is opened and never closed ends the argument
    vector: the words in front of it are found as usual, and the quote
    and everything typed after it are dropped without any notice. *)
Theorem parseline_open_quote_drops_rest
    (ws : list (nat * word)) (rest : string) (junk : nat → option string) :
  forallb (λ nw, word_ok nw.2) ws = true →
  has_char "'" rest = false →
  String.length (open_quote_line ws rest) < MAXLINE →
  length ws < MAXARGS →
  tokens_of (open_quote_line ws rest) = content <$> ws.*2
  ∧ ∃ argv' : list (option string),
      parseline (open_quote_line ws rest) (auto_array junk MAXARGS)
      = Ok ((strip_bg (content <$> ws.*2)).1, argv')
      ∧ argv_tokens argv' = (strip_bg (content <$> ws.*2)).2.
Proof.
  intros Hok Hrest Hlen Hargs.
  pose proof (tokens_of_open_quote_line ws rest Hok Hrest) as Htoks.
  split; [done |].
  apply parseline_of_tokens; [done | | by rewrite !length_fmap].
  split; [| done]. unfold open_quote_line. rewrite !length_append. simpl. lia.
Qed.

End ParserBounds.

(** ** More on the handlers *)

Section Handlers.

Context `{Platform}.

(** With no foreground job recorded the child handler changes nothing. *)
Lemma sigchld_handler_idle reaped st :
  g_runningPid st = 0%Z → sigchld_handler reaped st = st.
Proof.
  intros Hidle. induction reaped as [| [pid status] rest IH]; [done |].
  simpl. case_bool_decide; [| done].
  rewrite bool_decide_eq_false_2 by lia. exact IH.
Qed.

(** X6.  Stopping the foreground job and then resuming it brings the two
    slots back to what they were; the job's group has been sent the stop
    signal and then the continue signal, and a job that was suspended
    before has been sent the continue signal in between. *)
Theorem stop_then_resume_restores_slots (st : shell) :
  g_runningPid st ≠ 0%Z →
  g_runningPid (makefg (sigtstp_handler st)) = g_runningPid st
  ∧ g_suspendedPid (makefg (sigtstp_handler st)) = g_suspendedPid st
  ∧ kills (makefg (sigtstp_handler st))
    = kills st
      ++ [((- g_runningPid st)%Z, SIGTSTP)]
      ++ (if bool_decide (g_suspendedPid st ≠ 0%Z)
          then [((- g_suspendedPid st)%Z, SIGCONT)] else [])
      ++ [((- g_runningPid st)%Z, SIGCONT)].
Proof.
  intros Hr. unfold sigtstp_handler.
  rewrite bool_decide_eq_false_2 by done.
  unfold makefg. simpl.
  destruct (bool_decide_reflect (g_suspendedPid st ≠ 0%Z)); simpl;
    rewrite bool_decide_eq_true_2 by done; simpl;
    by rewrite <- ?app_assoc.
Qed.

(** X7.  The child handler never writes the suspended slot, sends no
    signal, and prints one line at most, however many children it reaps. *)
Theorem sigchld_handler_frame (reaped : list (Z * Z)) (st : shell) :
  g_suspendedPid (sigchld_handler reaped st) = g_suspendedPid st
  ∧ kills (sigchld_handler reaped st) = kills st
  ∧ ∃ notices : list string,
      output (sigchld_handler reaped st) = output st ++ notices
      ∧ length notices ≤ 1.
Proof.
  revert st. induction reaped as [| [pid status] rest IH]; intros st.
  - simpl. repeat split. exists []. rewrite app_nil_r.
    split; [done | simpl; lia].
  - simpl. destruct (bool_decide_reflect (0 < pid)%Z).
    + destruct (bool_decide_reflect (g_runningPid st = pid)) as [Hfg | Hfg];
        [| apply IH].
      rewrite sigchld_handler_idle by done.
      destruct (WIFSIGNALED status && _); simpl.
      * repeat split. eexists [_]. split; [done | simpl; lia].
      * repeat split. exists []. rewrite app_nil_r. split; [done | simpl; lia].
    + repeat split. exists []. rewrite app_nil_r. split; [done | simpl; lia].
Qed.

(** X8.  Reaping children other than the foreground job (background jobs,
    a suspended job that was killed) changes nothing at all: in
    particular the id of a suspended job that has died stays recorded. *)
Theorem sigchld_handler_other_children (reaped : list (Z * Z)) (st : shell) :
  g_runningPid st ∉ reaped.*1 → sigchld_handler reaped st = st.
Proof.
  induction reaped as [| [pid status] rest IH]; [done |].
  csimpl. intros Hnotin%not_elem_of_cons. destruct Hnotin as [Hne Hrest].
  case_bool_decide; [| done].
  rewrite bool_decide_eq_false_2 by done. by apply IH.
Qed.

(** X9.  When the foreground job is among the children reaped, the
    foreground slot is empty afterwards. *)
Theorem sigchld_handler_clears_foreground
    (reaped : list (Z * Z)) (st : shell) :
  Forall (λ ps, (0 < ps.1)%Z) reaped →
  g_runningPid st ∈ reaped.*1 →
  g_runningPid (sigchld_handler reaped st) = 0%Z.
Proof.
  induction reaped as [| [pid status] rest IH]; csimpl.
  - by intros _ ?%elem_of_nil.
  - intros [Hpos Hrest]%Forall_cons Hin. simpl in Hpos.
    rewrite bool_decide_eq_true_2 by done.
    destruct (bool_decide_reflect (g_runningPid st = pid)) as [Hfg | Hfg].
    + rewrite sigchld_handler_idle by done.
      by destruct (WIFSIGNALED status && _).
    + apply IH; [done |]. apply elem_of_cons in Hin as [? | ?]; done.
Qed.

(** X10.  While no foreground job is recorded, ctrl-c, ctrl-z and the
    death of children leave the shell state untouched: nothing is
    printed, no signal is sent, and the suspended job stays where it is. *)
Theorem idle_shell_ignores_signals (ops : list job_op) (st : shell) :
  g_runningPid st = 0%Z →
  Forall (λ op, op ≠ Resume) ops →
  Forall (λ st', st' = st) (states_along ops st).
Proof.
  intros Hidle Hops. induction Hops as [| op ops Hop Hops IH]; simpl.
  - by constructor.
  - constructor; [done |].
    assert (apply_op st op = st) as ->; [| exact IH].
    destruct op as [| | | reaped]; simpl.
    + unfold sigtstp_handler. by rewrite bool_decide_eq_true_2.
    + done.
    + unfold sigint_handler. by rewrite bool_decide_eq_true_2.
    + by apply sigchld_handler_idle.
Qed.

End Handlers.

(** ** More on eval *)

Section EvalRuns.

Context `{Platform}.

Implicit Types (c : config) (ch : choice) (s : signal) (p : point).

(** What every step keeps, every run keeps, at its end and on its way. *)
Lemma exec_invariant (I : config → Prop) :
  (∀ ch c c', I c → step ch c = Some c' → I c') →
  ∀ sched c tr c',
    I c → exec sched c = Some (tr, c') →
    I c' ∧ ∀ i ci ch, tr !! i = Some (ci, ch) → I ci.
Proof.
  intros Hstep. induction sched as [| ch0 sched IH]; intros c tr c' Hc Hexec.
  - simpl in Hexec. by simplify_eq.
  - apply exec_cons in Hexec as (c1 & tr1 & Hs & Hexec & ->).
    destruct (IH c1 tr1 c' (Hstep _ _ _ Hc Hs) Hexec) as [Hend Hway].
    split; [done |]. intros [| i] ci ch Hi; simpl in Hi.
    + by simplify_eq.
    + by eapply Hway.
Qed.

Lemma run_handler_idle s reaped c :
  g_runningPid (vars c) = 0%Z →
  g_runningPid (vars (run_handler s reaped c)) = 0%Z.
Proof.
  intros Hidle. destruct s; simpl; [| done | | done |].
  - unfold sigint_handler. by rewrite bool_decide_eq_true_2.
  - by rewrite sigchld_handler_idle.
  - unfold sigtstp_handler. by rewrite bool_decide_eq_true_2.
Qed.

Lemma run_handler_locals s reaped c :
  sigmask (run_handler s reaped c) = sigmask c
  ∧ saved (run_handler s reaped c) = saved c
  ∧ prev (run_handler s reaped c) = prev c
  ∧ bg (run_handler s reaped c) = bg c
  ∧ pc (run_handler s reaped c)
    = match s with SIGQUIT => P_exit 1 | _ => pc c end.
Proof. by destruct s. Qed.

Ltac decide_hyps :=
  repeat match goal with
         | Hb : bool_decide _ = false |- _ => apply bool_decide_eq_false in Hb
         | Hb : bool_decide _ = true |- _ => apply bool_decide_eq_true in Hb
         end.

Ltac step_cases Hstep :=
  unfold step in Hstep;
  match type of Hstep with
  | context [alive (pc ?c)] =>
      destruct (alive (pc c)) eqn:?; [| discriminate Hstep]
  end;
  match type of Hstep with
  | context [match ?ch with Raise _ => _ | _ => _ end] => destruct ch
  end.

Lemma step_idle_at_rest ch c c' :
  idle_at_rest c → step ch c = Some c' → idle_at_rest c'.
Proof.
  intros Hinv Hstep. step_cases Hstep.
  - by simplify_eq.
  - destruct (_ && _); [| done]. simplify_eq.
    unfold idle_at_rest in *.
    destruct (run_handler_locals s reaped
                (with_woken true (with_pending (sigdelset (pending c) s) c)))
      as (_ & _ & _ & _ & ->).
    pose proof (run_handler_idle s reaped
                  (with_woken true
                     (with_pending (sigdelset (pending c) s) c))) as Hidle.
    destruct s; simpl in *; try done;
      destruct (pc c); try done; by apply Hidle.
  - unfold eval, waitfg, idle_at_rest in *.
    destruct (pc c) as [| | | [] | [] | | | | | | | | | |] eqn:Hpc;
      try done; repeat case_match; simplify_eq; simpl; try done;
      decide_hyps; lia.
Qed.

(** X11.  Entered with no foreground job recorded, [eval] returns only
    with no foreground job recorded, whatever the line and whatever
    signals arrive: the prompt never comes back while a job launched in
    the foreground, or resumed by [fg], is still recorded as running. *)
Theorem eval_returns_idle
    (sched : list choice) (line : string) (junk : nat → option string)
    (st : shell) (mask pend : list signal)
    (tr : list (config * choice)) (c : config) :
  g_runningPid st = 0%Z →
  exec sched (enter_eval line junk st mask pend) = Some (tr, c) →
  pc c = P_return →
  g_runningPid (vars c) = 0%Z.
Proof.
  intros Hidle Hexec Hret.
  destruct (exec_invariant idle_at_rest step_idle_at_rest _ _ _ _
              (Hidle : idle_at_rest (enter_eval line junk st mask pend))
              Hexec) as [Hend _].
  unfold idle_at_rest in Hend. by rewrite Hret in Hend.
Qed.

Lemma step_mask_kept mask ch c c' :
  mask_kept mask c → step ch c = Some c' → mask_kept mask c'.
Proof.
  intros Hinv Hstep. step_cases Hstep.
  - by simplify_eq.
  - destruct (_ && _); [| done]. simplify_eq.
    unfold mask_kept in *.
    destruct (run_handler_locals s reaped
                (with_woken true (with_pending (sigdelset (pending c) s) c)))
      as (-> & -> & -> & _ & ->).
    destruct s; simpl in *; try done;
      by destruct (pc c) as [| | | [] | [] | | | | | | | | | |].
  - unfold eval, waitfg, mask_kept in *.
    destruct (pc c) as [| | | [] | [] | | | | | | | | | |] eqn:Hpc;
      try done; repeat case_match; by simplify_eq.
Qed.

(** X12.  When [eval] returns, the signal mask is the one it was entered
    with, whatever the line and whatever happened in between. *)
Theorem eval_restores_mask
    (sched : list choice) (line : string) (junk : nat → option string)
    (st : shell) (mask pend : list signal)
    (tr : list (config * choice)) (c : config) :
  exec sched (enter_eval line junk st mask pend) = Some (tr, c) →
  pc c = P_return →
  sigmask c = mask.
Proof.
  intros Hexec Hret.
  destruct (exec_invariant (mask_kept mask) (step_mask_kept mask) _ _ _ _
              (eq_refl : mask_kept mask (enter_eval line junk st mask pend))
              Hexec) as [Hend _].
  unfold mask_kept in Hend. by rewrite Hret in Hend.
Qed.

Lemma step_background_launch ch c c' :
  background_launch c → step ch c = Some c' → background_launch c'.
Proof.
  intros [Hbg Hinv] Hstep. step_cases Hstep.
  - by simplify_eq.
  - destruct (_ && _); [| done]. simplify_eq.
    unfold background_launch in *.
    destruct (run_handler_locals s reaped
                (with_woken true (with_pending (sigdelset (pending c) s) c)))
      as (_ & _ & _ & -> & ->).
    split; [done |].
    pose proof (run_handler_idle s reaped
                  (with_woken true
                     (with_pending (sigdelset (pending c) s) c))) as Hidle.
    destruct s; simpl in *; try done;
      destruct (pc c) as [| | | [] | [] | | | | | | | | | |];
      try done; by apply Hidle.
  - unfold eval, waitfg, background_launch in *.
    destruct (pc c) as [| | | [] | [] | | | | | | | | | |] eqn:Hpc;
      try done; repeat case_match; simplify_eq; simpl; try done;
      decide_hyps; (split; [done |]); first [done | lia].
Qed.

(** X13.  A background launch never waits: in every run of the launcher
    with the background flag set, the main flow never enters
    [sigsuspend], and wherever it stands before the return its next
    statement can be executed at once. *)
Theorem background_launch_never_waits
    (sched : list choice) (c0 c : config) (tr : list (config * choice)) :
  pc c0 = P_block → bg c0 ≠ 0%Z →
  exec sched c0 = Some (tr, c) →
  (∀ i ci ch from, tr !! i = Some (ci, ch) → pc ci ≠ P_suspend from)
  ∧ (∀ from, pc c ≠ P_suspend from)
  ∧ (alive (pc c) = true → pc c ≠ P_return →
     ∀ ret, is_Some (eval ret c)).
Proof.
  intros Hpc Hbg Hexec.
  assert (background_launch c0) as Hinv0
    by (unfold background_launch; by rewrite Hpc).
  destruct (exec_invariant background_launch step_background_launch
              _ _ _ _ Hinv0 Hexec) as [Hend Hway].
  split; [| split].
  - intros i ci ch from Hi Hsus. destruct (Hway i ci ch Hi) as [_ Hci].
    rewrite Hsus in Hci. by destruct from.
  - intros from Hsus. destruct Hend as [_ Hc].
    rewrite Hsus in Hc. by destruct from.
  - intros Halive Hnot ret. destruct Hend as [_ Hc].
    unfold eval, waitfg.
    destruct (pc c) as [| | | [] | [] | | | | | | | | | |] eqn:Hp;
      try done; repeat case_match; by eexists.
Qed.

Lemma step_in_child mask ch c c' :
  in_child mask c → step ch c = Some c' → in_child mask c'.
Proof.
  intros Hinv Hstep. step_cases Hstep.
  - by simplify_eq.
  - destruct (_ && _); [| done]. simplify_eq.
    unfold in_child in *.
    destruct (run_handler_locals s reaped
                (with_woken true (with_pending (sigdelset (pending c) s) c)))
      as (-> & _ & -> & _ & ->).
    destruct s; simpl in *; try done; by destruct (pc c).
  - unfold eval, in_child in *.
    destruct (pc c) eqn:Hpc; try done; repeat case_match; simplify_eq;
      simpl in *; by simplify_eq.
Qed.

(** X14.  The new process never comes back from [eval] to read commands:
    from the fork on it is either still about to call [execvp], or it has
    been replaced by the program, with the signal mask [eval] had saved,
    or it has exited with status 1 (or, when the line holds no character
    other than newlines, it has passed NULL to [printf]). *)
Theorem child_never_returns
    (sched : list choice) (c0 c : config) (tr : list (config * choice)) :
  pc c0 = P_child →
  exec sched c0 = Some (tr, c) →
  pc c = P_child
  ∨ (pc c = P_exec ∧ sigmask c = prev c0)
  ∨ pc c = P_exit 1
  ∨ pc c = P_fault NullDeref.
Proof.
  intros Hpc Hexec.
  assert (in_child (prev c0) c0) as Hinv0
    by (unfold in_child; by rewrite Hpc).
  destruct (exec_invariant (in_child (prev c0)) (step_in_child (prev c0))
              _ _ _ _ Hinv0 Hexec) as [Hend _].
  unfold in_child in Hend. destruct (pc c); try done.
  - by left.
  - right. right. left. by rewrite Hend.
  - right. by left.
  - right. right. right. by rewrite Hend.
Qed.

End EvalRuns.

(** ** Commands and the main loop *)

Section Commands.

Context `{Platform}.

Implicit Types (c : config) (ch : choice) (s : signal) (p : point).

Lemma strip_bg_head name (l : list string) :
  starts_with_amp name = false →
  ∃ l', (strip_bg (name :: l)).2 = name :: l'.
Proof.
  intros Hname. unfold strip_bg.
  destruct (last (name :: l)) as [tok |] eqn:Hlast;
    [| by apply last_None in Hlast].
  destruct (starts_with_amp tok) eqn:Htok; simpl; [| by eexists].
  destruct l as [| x l]; [| by eexists].
  simpl in Hlast. simplify_eq. congruence.
Qed.

Lemma argv_tokens_head (a : list (option string)) tok toks :
  argv_tokens a = tok :: toks → a !! 0 = Some (Some tok).
Proof.
  destruct a as [| [x |] a]; simpl; [done | | done]. by intros [= -> _].
Qed.

Lemma step_main ret c : alive (pc c) = true → step (Main ret) c = eval ret c.
Proof. unfold step. by intros ->. Qed.

(** The first step of [eval] on a command line: the name is in
    [argv[0]] and [builtin_cmd] is next. *)
Lemma eval_parses_command name ws junk st mask pend ret :
  word_ok (Plain name) = true → opens_with "&" name = false →
  forallb word_ok ws = true →
  String.length (line_of (Plain name :: ws)) < MAXLINE →
  S (length ws) < MAXARGS →
  ∃ (b : Z) (a : list (option string)),
    eval ret (enter_eval (line_of (Plain name :: ws)) junk st mask pend)
    = Some (Config P_builtin st mask pend (line_of (Plain name :: ws))
                   a b [] 0 [] false)
    ∧ a !! 0 = Some (Some name).
Proof.
  intros Hname Hamp Hws Hlen Hargs.
  destruct (parseline_of_tokens (line_of (Plain name :: ws))
              (content <$> Plain name :: ws) junk) as (a & Hp & Ha).
  { apply tokens_of_line. cbn [forallb]. by rewrite Hname. }
  { split; [| done]. unfold line_of. rewrite length_append. simpl. lia. }
  { rewrite length_fmap. simpl. lia. }
  assert (a !! 0 = Some (Some name)) as Ha0.
  { destruct (strip_bg_head name (content <$> ws)) as (l' & Hl').
    { by rewrite starts_with_amp_opens. }
    apply (argv_tokens_head a name l'). by rewrite Ha. }
  eexists _, a. split; [| done].
  unfold eval, enter_eval. simpl.
  rewrite bool_decide_eq_false_2 by lia.
  rewrite Hp. simpl. by rewrite Ha0.
Qed.

(** X15.  [quit], with or without arguments after it (a trailing [&]
    included), ends the shell with status 0 in the two steps of the parse
    and the dispatch: nothing is printed, no signal is sent, and the
    children are left as they are. *)
Theorem eval_quit_with_arguments
    (ws : list word) (junk : nat → option string) (st : shell)
    (mask pend : list signal) (r1 r2 : Z) :
  forallb word_ok ws = true →
  String.length (line_of (Plain "quit" :: ws)) < MAXLINE →
  S (length ws) < MAXARGS →
  ∃ tr c,
    exec [Main r1; Main r2]
      (enter_eval (line_of (Plain "quit" :: ws)) junk st mask pend)
    = Some (tr, c)
    ∧ pc c = P_exit 0
    ∧ vars c = st.
Proof.
  intros Hws Hlen Hargs.
  destruct (eval_parses_command "quit" ws junk st mask pend r1)
    as (b & a & Heval & Ha); [done.. |].
  cbn [exec]. rewrite step_main by done. rewrite Heval.
  rewrite step_main by done.
  unfold eval at 1. cbn [pc argv]. unfold builtin_cmd. rewrite Ha.
  change (String.eqb "quit" "quit") with true. cbv iota.
  by eexists _, _.
Qed.

(** X16.  [fg], from the prompt: when no job is suspended, [eval] is back
    after four steps and nothing has changed; when job [p] is suspended,
    its group has been sent the continue signal, [p] is now the
    foreground job, the suspended slot is empty, and the shell sleeps in
    [sigsuspend] with no signal blocked until a signal is handled. *)
Theorem eval_fg_from_prompt
    (ws : list word) (junk : nat → option string) (st : shell)
    (mask pend : list signal) (r1 r2 r3 r4 : Z) :
  forallb word_ok ws = true →
  String.length (line_of (Plain "fg" :: ws)) < MAXLINE →
  S (length ws) < MAXARGS →
  g_runningPid st = 0%Z →
  ∃ tr c,
    exec [Main r1; Main r2; Main r3; Main r4]
      (enter_eval (line_of (Plain "fg" :: ws)) junk st mask pend)
    = Some (tr, c)
    ∧ if bool_decide (g_suspendedPid st = 0%Z)
      then pc c = P_return ∧ vars c = st ∧ sigmask c = mask
      else pc c = P_suspend In_builtin
           ∧ vars c
             = Shell (g_suspendedPid st) 0 (output st)
                     (kills st ++ [((- g_suspendedPid st)%Z, SIGCONT)])
           ∧ sigmask c = []
           ∧ ∀ ret, eval ret c = None.
Proof.
  intros Hws Hlen Hargs Hidle.
  destruct (eval_parses_command "fg" ws junk st mask pend r1)
    as (b & a & Heval & Ha); [done.. |].
  cbn [exec]. rewrite step_main by done. rewrite Heval.
  rewrite step_main by done.
  unfold eval at 1. cbn [pc argv]. unfold builtin_cmd. rewrite Ha.
  change (String.eqb "fg" "quit") with false.
  change (String.eqb "fg" "fg") with true. cbv iota.
  rewrite step_main by done. unfold eval at 1. cbn [pc at_point].
  rewrite step_main by done. unfold eval at 1, waitfg.
  cbn [pc at_point with_vars].
  unfold makefg. destruct st as [r sp out ks]. simpl in *. subst r.
  destruct (decide (sp = 0%Z)) as [-> | Hsp].
  - simpl. eexists _, _. split; done.
  - assert (∀ d : Decision (sp ≠ 0%Z), @bool_decide _ d = true) as Hb
      by (intros d; by apply bool_decide_eq_true_2).
    rewrite !Hb. simpl.
    eexists _, _. split; [done |].
    by rewrite bool_decide_eq_false_2.
Qed.

(** *** fgets *)


Lemma fgets_no_newline room stdin :
  has_char "010" stdin = false → String.length stdin < room →
  fgets room stdin = (stdin, "", true).
Proof.
  revert stdin. induction room as [| room IH]; intros stdin Hnl Hlen; [lia |].
  destruct stdin as [| a stdin]; [done |]. simpl in *.
  apply orb_false_iff in Hnl as [-> Hnl]. by rewrite IH by (done || lia).
Qed.


(** *** The line buffers *)




(** *** What [main] hands to [eval] *)








Lemma fgets_line room text rest :
  has_char "010" text = false → String.length text < room →
  fgets room (text +:+ nl +:+ rest) = (text +:+ nl, rest, false).
Proof.
  revert text. induction room as [| room IH]; intros text Hnl Hlen; [lia |].
  destruct text as [| a text]; [done |]. simpl in *.
  apply orb_false_iff in Hnl as [Ha Hnl].
  rewrite Ha. by rewrite IH by (done || lia).
Qed.

(** X21.  A line that begins with a NUL byte: [fgets] stores it, [eval]
    receives the empty string, and [parseline] writes in front of its
    buffer ([buf[strlen (buf) - 1]] with [strlen (buf)] being 0). *)
Theorem main_nul_line_underruns
    (scheds : list (list choice)) (junk : nat → option string)
    (text rest sbuf : string) (st : shell) (mask pend : list signal)
    (ret : Z) :
  has_char "010" text = false →
  String.length text + 2 < MAXLINE →
  ∃ c : config,
    main_loop ([Main ret] :: scheds) junk
      (String "000" text +:+ nl +:+ rest) sbuf st mask pend = Gone c
    ∧ cmdline c = ""
    ∧ pc c = P_fault LineUnderflow.
Proof.
  intros Hnl Hlen. cbn [main_loop].
  rewrite (fgets_line (MAXLINE - 1) (String "000" text) rest)
    by (simpl; (done || unfold MAXLINE in *; lia)).
  rewrite bool_decide_eq_false_2 by done.
  by eexists.
Qed.

(** X19.  Input that ends without a newline: what was typed after the
    last newline is never evaluated.  When the whole input is such a
    piece (empty input included), [main] prints the prompt and exits with
    status 0. *)
Theorem main_drops_unterminated_line
    (scheds : list (list choice)) (junk : nat → option string)
    (stdin sbuf : string) (st : shell) (mask pend : list signal) :
  has_char "010" stdin = false →
  String.length stdin < MAXLINE - 1 →
  main_loop scheds junk stdin sbuf st mask pend
  = Exited 0 (printf prompt st).
Proof.
  intros Hnl Hlen.
  destruct scheds; cbn [main_loop]; by rewrite fgets_no_newline.
Qed.



End Commands.

(** ** The further theorems at concrete inputs *)

Lemma parseline_array_bound_witness :
  0 < String.length ("ls -l" +:+ nl) < MAXLINE
  ∧ ((∃ (b : Z) (argv' : list (option string)),
        parseline ("ls -l" +:+ nl) (auto_array no_junk 2) = Ok (b, argv'))
     ↔ length (tokens_of ("ls -l" +:+ nl)) < length (auto_array no_junk 2))
  ∧ parseline ("ls -l" +:+ nl) (auto_array no_junk 2)
    = Fault (ArgvOverflow 2).
Proof.
  assert (0 < String.length ("ls -l" +:+ nl) < MAXLINE) as Hlen
    by (vm_compute; lia).
  split; [assumption |].
  destruct (parseline_array_bound ("ls -l" +:+ nl) (auto_array no_junk 2) Hlen)
    as [Hiff Hover].
  split; [exact Hiff |]. apply Hover. vm_compute. lia.
Defined.

Lemma parseline_short_line_fits_witness :
  0 < String.length (many_args 127 +:+ nl) < MAXLINE
  ∧ String.length (many_args 127 +:+ nl)
    < 2 * length (auto_array no_junk MAXARGS)
  ∧ ∃ (b : Z) (argv' : list (option string)),
      parseline (many_args 127 +:+ nl) (auto_array no_junk MAXARGS)
      = Ok (b, argv')
      ∧ argv_tokens argv' = (strip_bg (tokens_of (many_args 127 +:+ nl))).2.
Proof.
  assert (0 < String.length (many_args 127 +:+ nl) < MAXLINE) as Hlen
    by (vm_compute; lia).
  assert (String.length (many_args 127 +:+ nl)
          < 2 * length (auto_array no_junk MAXARGS)) as Hshort
    by (vm_compute; lia).
  do 2 (split; [assumption |]).
  exact (parseline_short_line_fits _ _ Hlen Hshort).
Defined.

Lemma parseline_null_terminated_witness :
  ∃ argv' : list (option string),
    parseline ("ls -l &" +:+ nl) (auto_array no_junk 4) = Ok (1%Z, argv')
    ∧ argv' = [Some "ls"; Some "-l"; None; None]
    ∧ (strip_bg (tokens_of ("ls -l &" +:+ nl))).2 = ["ls"; "-l"]
    ∧ length argv' = length (auto_array no_junk 4)
    ∧ take (length (strip_bg (tokens_of ("ls -l &" +:+ nl))).2) argv'
      = Some <$> (strip_bg (tokens_of ("ls -l &" +:+ nl))).2
    ∧ argv' !! length (strip_bg (tokens_of ("ls -l &" +:+ nl))).2 = Some None
    ∧ 1%Z = (strip_bg (tokens_of ("ls -l &" +:+ nl))).1
    ∧ (1 = 0 ∨ 1 = 1)%Z
    ∧ (1%Z = 0%Z → (strip_bg (tokens_of ("ls -l &" +:+ nl))).2 ≠ []).
Proof.
  eexists. split; [vm_compute; reflexivity |]. split; [reflexivity |].
  split; [reflexivity |].
  apply (parseline_null_terminated ("ls -l &" +:+ nl) (auto_array no_junk 4)).
  vm_compute. reflexivity.
Defined.

Lemma parseline_ignores_extra_spaces_witness :
  forallb (λ nw, word_ok nw.2) [(2, Plain "ls"); (3, Quoted "a b")] = true
  ∧ gap_line [(2, Plain "ls"); (3, Quoted "a b")] 1
    = "  ls    'a b' " +:+ nl
  ∧ String.length (gap_line [(2, Plain "ls"); (3, Quoted "a b")] 1) < MAXLINE
  ∧ length [(2, Plain "ls"); (3, Quoted "a b")] < MAXARGS
  ∧ tokens_of ("  ls    'a b' " +:+ nl) = tokens_of ("ls 'a b'" +:+ nl)
  ∧ ∃ argv' : list (option string),
      parseline ("  ls    'a b' " +:+ nl) (auto_array no_junk MAXARGS)
      = Ok (0%Z, argv')
      ∧ argv_tokens argv' = ["ls"; "a b"].
Proof.
  assert (forallb (λ nw, word_ok nw.2) [(2, Plain "ls"); (3, Quoted "a b")]
          = true) as Hok by reflexivity.
  assert (String.length (gap_line [(2, Plain "ls"); (3, Quoted "a b")] 1)
          < MAXLINE) as Hlen by (vm_compute; lia).
  assert (length [(2, Plain "ls"); (3, Quoted "a b")] < MAXARGS) as Hargs
    by (vm_compute; lia).
  split; [assumption |]. split; [reflexivity |].
  do 2 (split; [assumption |]).
  exact (parseline_ignores_extra_spaces _ 1 no_junk Hok Hlen Hargs).
Defined.

Lemma parseline_open_quote_drops_rest_witness :
  forallb (λ nw, word_ok nw.2) [(0, Plain "echo")] = true
  ∧ has_char "'" "abc def" = false
  ∧ open_quote_line [(0, Plain "echo")] "abc def" = "echo 'abc def" +:+ nl
  ∧ String.length (open_quote_line [(0, Plain "echo")] "abc def") < MAXLINE
  ∧ length [(0, Plain "echo")] < MAXARGS
  ∧ tokens_of ("echo 'abc def" +:+ nl) = ["echo"]
  ∧ ∃ argv' : list (option string),
      parseline ("echo 'abc def" +:+ nl) (auto_array no_junk MAXARGS)
      = Ok (0%Z, argv')
      ∧ argv_tokens argv' = ["echo"].
Proof.
  assert (forallb (λ nw, word_ok nw.2) [(0, Plain "echo")] = true) as Hok
    by reflexivity.
  assert (has_char "'" "abc def" = false) as Hrest by reflexivity.
  assert (String.length (open_quote_line [(0, Plain "echo")] "abc def")
          < MAXLINE) as Hlen by (vm_compute; lia).
  assert (length [(0, Plain "echo")] < MAXARGS) as Hargs by (vm_compute; lia).
  do 2 (split; [assumption |]). split; [reflexivity |].
  do 2 (split; [assumption |]).
  exact (parseline_open_quote_drops_rest _ _ no_junk Hok Hrest Hlen Hargs).
Defined.

Lemma stop_then_resume_restores_slots_witness :
  g_runningPid (Shell 77 0 [] []) ≠ 0%Z
  ∧ g_runningPid (@makefg (@sigtstp_handler linux (Shell 77 0 [] []))) = 77%Z
  ∧ g_suspendedPid (@makefg (@sigtstp_handler linux (Shell 77 0 [] []))) = 0%Z
  ∧ kills (@makefg (@sigtstp_handler linux (Shell 77 0 [] [])))
    = [((-77)%Z, SIGTSTP); ((-77)%Z, SIGCONT)].
Proof.
  assert (g_runningPid (Shell 77 0 [] []) ≠ 0%Z) as Hr by discriminate.
  split; [assumption |].
  exact (@stop_then_resume_restores_slots linux (Shell 77 0 [] []) Hr).
Defined.

Lemma sigchld_handler_other_children_witness :
  (g_runningPid (Shell 77 55 [] [])
   ∉ ([(80, 0); (55, 9)]%Z : list (Z * Z)).*1)
  ∧ @sigchld_handler linux [(80, 0); (55, 9)]%Z (Shell 77 55 [] [])
    = Shell 77 55 [] [].
Proof.
  assert (g_runningPid (Shell 77 55 [] [])
          ∉ ([(80, 0); (55, 9)]%Z : list (Z * Z)).*1) as Hnot.
  { simpl. intros Hin. apply elem_of_cons in Hin as [Hin | Hin];
      [discriminate Hin |].
    apply elem_of_cons in Hin as [Hin | Hin]; [discriminate |].
    by apply elem_of_nil in Hin. }
  split; [assumption |].
  exact (@sigchld_handler_other_children linux _ _ Hnot).
Defined.

Lemma sigchld_handler_clears_foreground_witness :
  Forall (λ ps : Z * Z, (0 < ps.1)%Z) [(80, 0); (77, 2)]%Z
  ∧ g_runningPid (Shell 77 0 [] [])
    ∈ ([(80, 0); (77, 2)]%Z : list (Z * Z)).*1
  ∧ g_runningPid
      (@sigchld_handler linux [(80, 0); (77, 2)]%Z (Shell 77 0 [] []))
    = 0%Z.
Proof.
  assert (Forall (λ ps : Z * Z, (0 < ps.1)%Z) [(80, 0); (77, 2)]%Z) as Hpos.
  { repeat constructor. }
  assert (g_runningPid (Shell 77 0 [] [])
          ∈ ([(80, 0); (77, 2)]%Z : list (Z * Z)).*1) as Hin.
  { simpl. apply elem_of_cons. right. apply elem_of_cons. by left. }
  do 2 (split; [assumption |]).
  exact (@sigchld_handler_clears_foreground linux _ _ Hpos Hin).
Defined.

Lemma idle_shell_ignores_signals_witness :
  g_runningPid (Shell 0 55 [] []) = 0%Z
  ∧ Forall (λ op, op ≠ Resume) [Interrupt; Stop; Reap [(80, 0)]%Z]
  ∧ Forall (λ st', st' = Shell 0 55 [] [])
      (@states_along linux [Interrupt; Stop; Reap [(80, 0)]%Z]
         (Shell 0 55 [] [])).
Proof.
  assert (g_runningPid (Shell 0 55 [] []) = 0%Z) as Hidle by reflexivity.
  assert (Forall (λ op, op ≠ Resume) [Interrupt; Stop; Reap [(80, 0)]%Z])
    as Hops by (repeat constructor; discriminate).
  do 2 (split; [assumption |]).
  exact (@idle_shell_ignores_signals linux _ _ Hidle Hops).
Defined.

Lemma eval_returns_idle_witness :
  g_runningPid idle_shell = 0%Z
  ∧ ∃ tr c,
      @exec linux foreground_schedule
        (enter_eval ("ls" +:+ nl) no_junk idle_shell [] []) = Some (tr, c)
      ∧ pc c = P_return
      ∧ g_runningPid (vars c) = 0%Z.
Proof.
  split; [reflexivity |].
  eexists _, _. split; [vm_compute; reflexivity |]. split; [reflexivity |].
  eapply (@eval_returns_idle linux foreground_schedule ("ls" +:+ nl) no_junk
            idle_shell [] []);
    [reflexivity | vm_compute; reflexivity | reflexivity].
Defined.

Lemma eval_restores_mask_witness :
  ∃ tr c,
    @exec linux foreground_schedule
      (enter_eval ("ls" +:+ nl) no_junk idle_shell [SIGQUIT] []) = Some (tr, c)
    ∧ pc c = P_return
    ∧ sigmask c = [SIGQUIT].
Proof.
  eexists _, _. split; [vm_compute; reflexivity |]. split; [reflexivity |].
  eapply (@eval_restores_mask linux foreground_schedule ("ls" +:+ nl) no_junk
            idle_shell [SIGQUIT] []);
    [vm_compute; reflexivity | reflexivity].
Defined.

Lemma background_launch_never_waits_witness :
  pc (with_parse 1 (argv at_launch) at_launch) = P_block
  ∧ bg (with_parse 1 (argv at_launch) at_launch) ≠ 0%Z
  ∧ ∃ tr c,
      @exec linux [Main 0; Raise SIGCHLD; Main 77; Main 0; Main 0; Main 0]
        (with_parse 1 (argv at_launch) at_launch) = Some (tr, c)
      ∧ pc c = P_restore
      ∧ (∀ i ci ch from, tr !! i = Some (ci, ch) → pc ci ≠ P_suspend from)
      ∧ (∀ from, pc c ≠ P_suspend from)
      ∧ (alive (pc c) = true → pc c ≠ P_return →
         ∀ ret, is_Some (@eval linux ret c)).
Proof.
  assert (bg (with_parse 1 (argv at_launch) at_launch) ≠ 0%Z) as Hbg
    by discriminate.
  split; [reflexivity |]. split; [assumption |].
  eexists _, _. split; [vm_compute; reflexivity |]. split; [reflexivity |].
  eapply (@background_launch_never_waits linux
            [Main 0; Raise SIGCHLD; Main 77; Main 0; Main 0; Main 0]
            (with_parse 1 (argv at_launch) at_launch));
    [reflexivity | exact Hbg | vm_compute; reflexivity].
Defined.

Lemma child_never_returns_witness :
  pc (at_point P_child at_launch) = P_child
  ∧ ∃ tr c,
      @exec linux [Raise SIGINT; Main (-1)] (at_point P_child at_launch)
      = Some (tr, c)
      ∧ (pc c = P_child
         ∨ (pc c = P_exec ∧ sigmask c = prev (at_point P_child at_launch))
         ∨ pc c = P_exit 1
         ∨ pc c = P_fault NullDeref).
Proof.
  split; [reflexivity |].
  eexists _, _. split; [vm_compute; reflexivity |].
  eapply (@child_never_returns linux [Raise SIGINT; Main (-1)]
            (at_point P_child at_launch));
    [reflexivity | vm_compute; reflexivity].
Defined.

Lemma eval_quit_with_arguments_witness :
  forallb word_ok [Plain "now"; Plain "&"] = true
  ∧ String.length (line_of (Plain "quit" :: [Plain "now"; Plain "&"]))
    < MAXLINE
  ∧ S (length [Plain "now"; Plain "&"]) < MAXARGS
  ∧ ∃ tr c,
      @exec linux [Main 0; Main 0]
        (enter_eval (line_of (Plain "quit" :: [Plain "now"; Plain "&"]))
           no_junk (Shell 0 55 [] []) [] [])
      = Some (tr, c)
      ∧ pc c = P_exit 0
      ∧ vars c = Shell 0 55 [] [].
Proof.
  assert (forallb word_ok [Plain "now"; Plain "&"] = true) as Hws
    by reflexivity.
  assert (String.length (line_of (Plain "quit" :: [Plain "now"; Plain "&"]))
          < MAXLINE) as Hlen by (vm_compute; lia).
  assert (S (length [Plain "now"; Plain "&"]) < MAXARGS) as Hargs
    by (vm_compute; lia).
  do 3 (split; [assumption |]).
  exact (@eval_quit_with_arguments linux _ no_junk (Shell 0 55 [] []) [] []
           0 0 Hws Hlen Hargs).
Defined.

Lemma eval_fg_from_prompt_witness :
  forallb word_ok [] = true
  ∧ String.length (line_of [Plain "fg"]) < MAXLINE
  ∧ S (length (@nil word)) < MAXARGS
  ∧ g_runningPid (Shell 0 55 [] []) = 0%Z
  ∧ ∃ tr c,
      @exec linux [Main 0; Main 0; Main 0; Main 0]
        (enter_eval (line_of [Plain "fg"]) no_junk (Shell 0 55 [] []) [] [])
      = Some (tr, c)
      ∧ pc c = P_suspend In_builtin
      ∧ vars c = Shell 55 0 [] [((-55)%Z, SIGCONT)]
      ∧ sigmask c = []
      ∧ ∀ ret, @eval linux ret c = None.
Proof.
  assert (String.length (line_of [Plain "fg"]) < MAXLINE) as Hlen
    by (vm_compute; lia).
  assert (S (length (@nil word)) < MAXARGS) as Hargs by (vm_compute; lia).
  split; [reflexivity |]. do 2 (split; [assumption |]).
  split; [reflexivity |].
  exact (@eval_fg_from_prompt linux [] no_junk (Shell 0 55 [] []) [] []
           0 0 0 0 eq_refl Hlen Hargs eq_refl).
Defined.



Lemma main_nul_line_underruns_witness :
  has_char "010" "ls" = false
  ∧ String.length "ls" + 2 < MAXLINE
  ∧ ∃ c : config,
      @main_loop linux [[Main 0]; [Main 0]] no_junk
        (String "000" "ls" +:+ nl +:+ "quit" +:+ nl) "" idle_shell [] []
      = Gone c
      ∧ cmdline c = ""
      ∧ pc c = P_fault LineUnderflow.
Proof.
  assert (String.length "ls" + 2 < MAXLINE) as Hlen by (vm_compute; lia).
  split; [reflexivity |]. split; [assumption |].
  exact (@main_nul_line_underruns linux [[Main 0]] no_junk "ls"
           ("quit" +:+ nl) "" idle_shell [] [] 0 eq_refl Hlen).
Defined.

Lemma main_drops_unterminated_line_witness :
  has_char "010" "ls -l" = false
  ∧ String.length "ls -l" < MAXLINE - 1
  ∧ @main_loop linux [[Main 0]] no_junk "ls -l" "" idle_shell [] []
    = Exited 0 (Shell 0 0 [prompt] []).
Proof.
  assert (String.length "ls -l" < MAXLINE - 1) as Hlen by (vm_compute; lia).
  split; [reflexivity |]. split; [assumption |].
  exact (@main_drops_unterminated_line linux [[Main 0]] no_junk "ls -l" ""
           idle_shell [] [] eq_refl Hlen).
Defined.

